(** * LaFrance: the cache and file-name logic of the French TTS session

    A shallow embedding of [src/main.py] and [src/config.py].

    - Python [str] values are sequences of Unicode code points ([list N]);
      [bytes] values are sequences of octets ([list N], each below 256).
    - The standard-library services the program calls ([str.encode],
      [hashlib.md5], [re.sub], [str.split], [json.dump], [json.load],
      [os.path]) are modelled by executable definitions; the speech
      synthesis service, the audio player, the clock and the Unicode
      character database are parameters.
    - [FrenchTTS] methods are functions over the session record and an
      explicit file-system state; they return the Python outcome (a value
      or a raised exception), the session and world after the call, and the
      list of externally visible events. *)

From Stdlib Require Import ZArith NArith Lia Ascii String DecimalString.
From stdpp Require Import base option list gmap.

Local Open Scope N_scope.

(** ** Python strings and outcomes *)

Abbreviation pystr := (list N).
Abbreviation pybytes := (list N).

(** A string literal of the source, character by character (ASCII only). *)
Fixpoint lit (s : string) : pystr :=
  match s with
  | EmptyString => []
  | String c s' => N_of_ascii c :: lit s'
  end.

Inductive exn : Type :=
  | UnicodeEncodeError
  | UnicodeDecodeError
  | JSONDecodeError
  | OSError
  | KeyError
  | SynthesisError.

(** Outcome of a Python call: a value or a raised exception. *)
Inductive result (A : Type) : Type :=
  | Ok (a : A)
  | Raise (e : exn).
Arguments Ok {A} a.
Arguments Raise {A} e.

Definition rbind {A B} (r : result A) (f : A -> result B) : result B :=
  match r with
  | Ok a => f a
  | Raise e => Raise e
  end.

Declare Scope py_scope.
Delimit Scope py_scope with py.
Notation "'let*' x := r 'in' k" := (rbind r (fun x => k))
  (at level 10, x pattern, r at level 100, k at level 200) : py_scope.
Local Open Scope py_scope.

(** ** UTF-8 ([str.encode('utf-8')] and the text layer of [open]) *)

Module Utf8.

Definition is_surrogate (c : N) : bool := (0xD800 <=? c) && (c <=? 0xDFFF).

(** One code point; [None] where the strict codec refuses it. *)
Definition encode_cp (c : N) : option pybytes :=
  if c <? 0x80 then Some [c]
  else if c <? 0x800 then Some [0xC0 + c / 64; 0x80 + c mod 64]
  else if c <? 0x10000 then
    if is_surrogate c then None
    else Some [0xE0 + c / 4096; 0x80 + (c / 64) mod 64; 0x80 + c mod 64]
  else if c <? 0x110000 then
    Some [0xF0 + c / 262144; 0x80 + (c / 4096) mod 64;
          0x80 + (c / 64) mod 64; 0x80 + c mod 64]
  else None.

(** [s.encode('utf-8')]: raises [UnicodeEncodeError] on a lone surrogate. *)
Fixpoint encode (s : pystr) : result pybytes :=
  match s with
  | [] => Ok []
  | c :: s' =>
      match encode_cp c with
      | None => Raise UnicodeEncodeError
      | Some bs => let* rest := encode s' in Ok (bs ++ rest)
      end
  end.

Definition encodable (s : pystr) : Prop :=
  Forall (fun c => c < 0x110000 /\ is_surrogate c = false) s.

Definition is_cont (b : N) : bool := (0x80 <=? b) && (b <? 0xC0).

(** Strict decoding of one code point at the head of [bs]:
    the code point and the number of octets consumed. *)
Definition decode_cp (bs : pybytes) : option (N * nat) :=
  match bs with
  | [] => None
  | b0 :: t =>
      if b0 <? 0x80 then Some (b0, 1%nat)
      else if b0 <? 0xC0 then None
      else if b0 <? 0xE0 then
        match t with
        | b1 :: _ =>
            let c := (b0 - 0xC0) * 64 + (b1 - 0x80) in
            if is_cont b1 && (0x80 <=? c) then Some (c, 2%nat) else None
        | _ => None
        end
      else if b0 <? 0xF0 then
        match t with
        | b1 :: b2 :: _ =>
            let c := (b0 - 0xE0) * 4096 + (b1 - 0x80) * 64 + (b2 - 0x80) in
            if is_cont b1 && is_cont b2 && (0x800 <=? c)
               && negb (is_surrogate c)
            then Some (c, 3%nat) else None
        | _ => None
        end
      else if b0 <? 0xF8 then
        match t with
        | b1 :: b2 :: b3 :: _ =>
            let c := (b0 - 0xF0) * 262144 + (b1 - 0x80) * 4096
                     + (b2 - 0x80) * 64 + (b3 - 0x80) in
            if is_cont b1 && is_cont b2 && is_cont b3
               && (0x10000 <=? c) && (c <? 0x110000)
            then Some (c, 4%nat) else None
        | _ => None
        end
      else None
  end.

Fixpoint decode_fuel (fuel : nat) (bs : pybytes) : result pystr :=
  match bs with
  | [] => Ok []
  | _ =>
      match fuel with
      | O => Raise UnicodeDecodeError
      | S fuel' =>
          match decode_cp bs with
          | None => Raise UnicodeDecodeError
          | Some (c, n) =>
              let* rest := decode_fuel fuel' (drop n bs) in Ok (c :: rest)
          end
      end
  end.

(** [bs.decode('utf-8')]; every step consumes at least one octet, so the
    length of the input is enough fuel. *)
Definition decode (bs : pybytes) : result pystr :=
  decode_fuel (length bs) bs.

End Utf8.

(** ** MD5 ([hashlib.md5], RFC 1321) on 32-bit words held in [Z] *)

Module MD5.
Local Open Scope Z_scope.

Definition w32 (x : Z) : Z := x mod 2 ^ 32.

Definition rotl (x : Z) (c : Z) : Z :=
  w32 (Z.lor (Z.shiftl x c) (Z.shiftr x (32 - c))).

Definition not32 (x : Z) : Z := Z.lxor x 0xFFFFFFFF.

Definition K : list Z :=
  [ 0xd76aa478; 0xe8c7b756; 0x242070db; 0xc1bdceee;
    0xf57c0faf; 0x4787c62a; 0xa8304613; 0xfd469501;
    0x698098d8; 0x8b44f7af; 0xffff5bb1; 0x895cd7be;
    0x6b901122; 0xfd987193; 0xa679438e; 0x49b40821;
    0xf61e2562; 0xc040b340; 0x265e5a51; 0xe9b6c7aa;
    0xd62f105d; 0x02441453; 0xd8a1e681; 0xe7d3fbc8;
    0x21e1cde6; 0xc33707d6; 0xf4d50d87; 0x455a14ed;
    0xa9e3e905; 0xfcefa3f8; 0x676f02d9; 0x8d2a4c8a;
    0xfffa3942; 0x8771f681; 0x6d9d6122; 0xfde5380c;
    0xa4beea44; 0x4bdecfa9; 0xf6bb4b60; 0xbebfbc70;
    0x289b7ec6; 0xeaa127fa; 0xd4ef3085; 0x04881d05;
    0xd9d4d039; 0xe6db99e5; 0x1fa27cf8; 0xc4ac5665;
    0xf4292244; 0x432aff97; 0xab9423a7; 0xfc93a039;
    0x655b59c3; 0x8f0ccc92; 0xffeff47d; 0x85845dd1;
    0x6fa87e4f; 0xfe2ce6e0; 0xa3014314; 0x4e0811a1;
    0xf7537e82; 0xbd3af235; 0x2ad7d2bb; 0xeb86d391 ].

Definition S : list Z :=
  [ 7; 12; 17; 22; 7; 12; 17; 22; 7; 12; 17; 22; 7; 12; 17; 22;
    5; 9; 14; 20; 5; 9; 14; 20; 5; 9; 14; 20; 5; 9; 14; 20;
    4; 11; 16; 23; 4; 11; 16; 23; 4; 11; 16; 23; 4; 11; 16; 23;
    6; 10; 15; 21; 6; 10; 15; 21; 6; 10; 15; 21; 6; 10; 15; 21 ].

Record state : Type := State { sa : Z; sb : Z; sc : Z; sd : Z }.

Definition init : state :=
  State 0x67452301 0xefcdab89 0x98badcfe 0x10325476.

(** Little-endian octets of a word, and back. *)
Definition le_bytes (n : nat) (x : Z) : list Z :=
  map (fun i => (x / 2 ^ (8 * Z.of_nat i)) mod 256) (seq 0 n).

Fixpoint le_word (bs : list Z) : Z :=
  match bs with
  | [] => 0
  | b :: bs' => b + 256 * le_word bs'
  end.

Fixpoint words (n : nat) (bs : list Z) : list Z :=
  match n with
  | O => []
  | Datatypes.S n' => le_word (take 4 bs) :: words n' (drop 4 bs)
  end.

(** One of the 64 operations: mixing function and message index by round. *)
Definition step (M : list Z) (st : state) (i : nat) : state :=
  let '(State a b c d) := st in
  let zi := Z.of_nat i in
  let '(f, g) :=
    if zi <? 16 then (Z.lor (Z.land b c) (Z.land (not32 b) d), zi)
    else if zi <? 32 then
      (Z.lor (Z.land d b) (Z.land (not32 d) c), (5 * zi + 1) mod 16)
    else if zi <? 48 then (Z.lxor b (Z.lxor c d), (3 * zi + 5) mod 16)
    else (Z.lxor c (Z.lor b (not32 d)), (7 * zi) mod 16) in
  let f' := w32 (f + a + nth i K 0 + nth (Z.to_nat g) M 0) in
  State d (w32 (b + rotl f' (nth i S 0))) b c.

Definition block (st : state) (bs : list Z) : state :=
  let M := words 16 bs in
  let st' := foldl (step M) st (seq 0 64) in
  State (w32 (sa st + sa st')) (w32 (sb st + sb st'))
        (w32 (sc st + sc st')) (w32 (sd st + sd st')).

Fixpoint blocks (n : nat) (st : state) (bs : list Z) : state :=
  match n with
  | O => st
  | Datatypes.S n' => blocks n' (block st (take 64 bs)) (drop 64 bs)
  end.

(** Message, the octet 0x80, zeros up to 56 modulo 64, bit length on 8 octets. *)
Definition pad (msg : list Z) : list Z :=
  let len := Z.of_nat (length msg) in
  let zeros := Z.to_nat ((55 - len) mod 64) in
  msg ++ [0x80] ++ repeat 0 zeros ++ le_bytes 8 ((8 * len) mod 2 ^ 64).

Definition digest (msg : list Z) : list Z :=
  let p := pad msg in
  let st := blocks (length p / 64) init p in
  le_bytes 4 (sa st) ++ le_bytes 4 (sb st)
    ++ le_bytes 4 (sc st) ++ le_bytes 4 (sd st).

End MD5.

(** ** Hexadecimal rendering ([hexdigest], [\uXXXX]) *)

Definition hex_digit (n : N) : N :=
  if n <? 10 then 48 + n else 87 + n.

Definition is_hex_lower (c : N) : bool :=
  ((48 <=? c) && (c <=? 57)) || ((97 <=? c) && (c <=? 102)).

Definition hex_byte (b : N) : pystr := [hex_digit (b / 16); hex_digit (b mod 16)].

(** [hashlib.md5(data).hexdigest()] *)
Definition md5_hexdigest (data : pybytes) : pystr :=
  flat_map (fun b => hex_byte (Z.to_N b)) (MD5.digest (map Z.of_N data)).

(** ** Character classes and [str] methods *)

(** [Py_UNICODE_ISSPACE]: what [\s], [str.split()] and [str.strip()] treat
    as whitespace. *)
Definition py_isspace (c : N) : bool :=
  ((9 <=? c) && (c <=? 13)) || ((28 <=? c) && (c <=? 32))
  || (c =? 0x85) || (c =? 0xA0) || (c =? 0x1680)
  || ((0x2000 <=? c) && (c <=? 0x200A))
  || (c =? 0x2028) || (c =? 0x2029) || (c =? 0x202F)
  || (c =? 0x205F) || (c =? 0x3000).

(** The alphanumeric code points of Latin-1 ([str.isalnum] below U+0100):
    an instance of the character database for concrete runs. *)
Definition latin1_alnum (c : N) : bool :=
  ((48 <=? c) && (c <=? 57)) || ((65 <=? c) && (c <=? 90))
  || ((97 <=? c) && (c <=? 122))
  || (c =? 0xAA) || (c =? 0xB2) || (c =? 0xB3) || (c =? 0xB5)
  || (c =? 0xB9) || (c =? 0xBA) || ((0xBC <=? c) && (c <=? 0xBE))
  || ((0xC0 <=? c) && (c <=? 0xD6)) || ((0xD8 <=? c) && (c <=? 0xF6))
  || ((0xF8 <=? c) && (c <=? 0xFF)).

(** [s.startswith(p)] and [s.endswith(p)] *)
Fixpoint py_startswith (s p : pystr) {struct p} : bool :=
  match p with
  | [] => true
  | c :: p' =>
      match s with
      | d :: s' => (c =? d) && py_startswith s' p'
      | [] => false
      end
  end.

Definition py_endswith (s p : pystr) : bool :=
  py_startswith (rev s) (rev p).

(** [s.lstrip()], [s.rstrip()], [s.strip()] *)
Fixpoint py_lstrip_by (f : N -> bool) (s : pystr) : pystr :=
  match s with
  | [] => []
  | c :: s' => if f c then py_lstrip_by f s' else s
  end.

Definition py_rstrip_by (f : N -> bool) (s : pystr) : pystr :=
  rev (py_lstrip_by f (rev s)).

Definition py_strip (s : pystr) : pystr :=
  py_rstrip_by py_isspace (py_lstrip_by py_isspace s).

(** [s.rstrip(chars)] *)
Definition py_rstrip_chars (chars s : pystr) : pystr :=
  py_rstrip_by (fun c => bool_decide (c ∈ chars)) s.

(** [s.split()]: maximal runs of non-whitespace; [cur] is the word being
    read, latest character first. *)
Fixpoint py_split_from (cur : pystr) (s : pystr) : list pystr :=
  match s with
  | [] => match cur with [] => [] | _ => [rev cur] end
  | c :: s' =>
      if py_isspace c then
        match cur with
        | [] => py_split_from [] s'
        | _ => rev cur :: py_split_from [] s'
        end
      else py_split_from (c :: cur) s'
  end.

Definition py_split (s : pystr) : list pystr := py_split_from [] s.

(** [sep.join(words)] *)
Fixpoint py_join (sep : pystr) (words : list pystr) : pystr :=
  match words with
  | [] => []
  | [w] => w
  | w :: ws => w ++ sep ++ py_join sep ws
  end.

(** ** Regular-expression substitutions of the two shapes the program uses *)

(** [re.sub('[class]', repl, s)]: every character of the class is replaced. *)
Definition re_sub_class (cls : N -> bool) (repl s : pystr) : pystr :=
  flat_map (fun c => if cls c then repl else [c]) s.

(** [re.sub('[class]+', repl, s)]: every maximal run of the class is
    replaced once; [in_run] tells that the previous character matched. *)
Fixpoint re_sub_run_from (cls : N -> bool) (repl : pystr) (in_run : bool)
    (s : pystr) : pystr :=
  match s with
  | [] => []
  | c :: s' =>
      if cls c then
        (if in_run then [] else repl) ++ re_sub_run_from cls repl true s'
      else c :: re_sub_run_from cls repl false s'
  end.

Definition re_sub_class_plus (cls : N -> bool) (repl s : pystr) : pystr :=
  re_sub_run_from cls repl false s.

(** ** [os.path] (POSIX flavour) *)

Module posixpath.

(** [os.path.join(a, b)] *)
Definition join (a b : pystr) : pystr :=
  if py_startswith b (lit "/") then b
  else if bool_decide (a = []) || py_endswith a (lit "/") then a ++ b
  else a ++ lit "/" ++ b.

(** [os.path.basename(p)]: what follows the last slash; [cur] is the
    component being read, latest character first. *)
Fixpoint basename_from (cur : pystr) (p : pystr) : pystr :=
  match p with
  | [] => rev cur
  | c :: p' => if c =? 47 then basename_from [] p' else basename_from (c :: cur) p'
  end.

Definition basename (p : pystr) : pystr := basename_from [] p.

End posixpath.

(** ** JSON ([json.dump] with [ensure_ascii=False, indent=2], [json.load]) *)

Module Json.

(** What [json.load] builds.  Numbers are recognised but not interpreted;
    object members are kept in document order, duplicates included. *)
#[local] Unset Elimination Schemes.
Inductive value : Type :=
  | Null
  | Bool (b : bool)
  | Number
  | Str (s : pystr)
  | Arr (l : list value)
  | Obj (members : list (pystr * value)).
#[local] Set Elimination Schemes.

(** *** Encoder *)

Definition hex4 (n : N) : pystr :=
  [hex_digit (n / 4096 mod 16); hex_digit (n / 256 mod 16);
   hex_digit (n / 16 mod 16); hex_digit (n mod 16)].

(** The replacement table of [encode_basestring]: quote, backslash and
    the control characters below U+0020. *)
Definition escape_char (c : N) : pystr :=
  if c =? 34 then [92; 34]
  else if c =? 92 then [92; 92]
  else if c =? 10 then [92; 110]
  else if c =? 13 then [92; 114]
  else if c =? 9 then [92; 116]
  else if c =? 8 then [92; 98]
  else if c =? 12 then [92; 102]
  else if c <? 32 then [92; 117] ++ hex4 c
  else [c].

Definition encode_basestring (s : pystr) : pystr :=
  [34] ++ flat_map escape_char s ++ [34].

Definition newline_indent : pystr := [10; 32; 32].
Definition item_separator : pystr := [44; 10; 32; 32].
Definition key_separator : pystr := [58; 32].

Definition member_chunks (kv : pystr * pystr) : list pystr :=
  [encode_basestring kv.1; key_separator; encode_basestring kv.2].

(** The chunks [json.dump] hands to [fp.write], one after the other, for a
    dictionary of strings at indentation level 0. *)
Definition iterencode (items : list (pystr * pystr)) : list pystr :=
  match items with
  | [] => [[123; 125]]
  | kv :: rest =>
      [[123]; newline_indent] ++ member_chunks kv
        ++ flat_map (fun kv' => item_separator :: member_chunks kv') rest
        ++ [[10]; [125]]
  end.

(** *** Decoder *)

Definition is_ws (c : N) : bool :=
  (c =? 32) || (c =? 9) || (c =? 10) || (c =? 13).

Fixpoint skip_ws (s : pystr) : pystr :=
  match s with
  | [] => []
  | c :: s' => if is_ws c then skip_ws s' else s
  end.

Definition hex_val (c : N) : option N :=
  if (48 <=? c) && (c <=? 57) then Some (c - 48)
  else if (97 <=? c) && (c <=? 102) then Some (c - 87)
  else if (65 <=? c) && (c <=? 70) then Some (c - 55)
  else None.

Definition hex4_val (h1 h2 h3 h4 : N) : option N :=
  match hex_val h1, hex_val h2, hex_val h3, hex_val h4 with
  | Some a, Some b, Some c, Some d => Some (a * 4096 + b * 256 + c * 16 + d)
  | _, _, _, _ => None
  end.

(** The table [BACKSLASH] of one-letter escapes. *)
Definition unescape (e : N) : option N :=
  if e =? 34 then Some 34
  else if e =? 92 then Some 92
  else if e =? 47 then Some 47
  else if e =? 98 then Some 8
  else if e =? 102 then Some 12
  else if e =? 110 then Some 10
  else if e =? 114 then Some 13
  else if e =? 116 then Some 9
  else None.

Definition is_high_surrogate (u : N) : bool := (0xD800 <=? u) && (u <=? 0xDBFF).
Definition is_low_surrogate (u : N) : bool := (0xDC00 <=? u) && (u <=? 0xDFFF).
Definition join_surrogates (u u2 : N) : N :=
  0x10000 + (u - 0xD800) * 1024 + (u2 - 0xDC00).

Definition cons_to (c : N) (r : result (pystr * pystr)) : result (pystr * pystr) :=
  let* (str, rest) := r in Ok (c :: str, rest).

(** [scanstring(s, end, strict=True)], entered after the opening quote:
    the decoded string and the input after the closing quote. *)
Fixpoint scanstring (s : pystr) : result (pystr * pystr) :=
  match s with
  | [] => Raise JSONDecodeError
  | c :: s1 =>
      if c =? 34 then Ok ([], s1)
      else if c =? 92 then
        match s1 with
        | [] => Raise JSONDecodeError
        | e :: s2 =>
            if e =? 117 then
              match s2 with
              | h1 :: h2 :: h3 :: h4 :: s3 =>
                  match hex4_val h1 h2 h3 h4 with
                  | None => Raise JSONDecodeError
                  | Some u =>
                      match s3 with
                      | b :: e2 :: g1 :: g2 :: g3 :: g4 :: s4 =>
                          if is_high_surrogate u && (b =? 92) && (e2 =? 117) then
                            match hex4_val g1 g2 g3 g4 with
                            | None => Raise JSONDecodeError
                            | Some u2 =>
                                if is_low_surrogate u2
                                then cons_to (join_surrogates u u2) (scanstring s4)
                                else cons_to u (scanstring s3)
                            end
                          else cons_to u (scanstring s3)
                      | _ => cons_to u (scanstring s3)
                      end
                  end
              | _ => Raise JSONDecodeError
              end
            else
              match unescape e with
              | None => Raise JSONDecodeError
              | Some ch => cons_to ch (scanstring s2)
              end
        end
      else if c <? 32 then Raise JSONDecodeError
      else cons_to c (scanstring s1)
  end.

Definition is_digit (c : N) : bool := (48 <=? c) && (c <=? 57).

Fixpoint skip_digits (s : pystr) : pystr :=
  match s with
  | [] => []
  | c :: s' => if is_digit c then skip_digits s' else s
  end.

(** Optional fraction: a dot followed by at least one digit. *)
Definition skip_frac (s : pystr) : pystr :=
  match s with
  | dot :: d :: t => if (dot =? 46) && is_digit d then skip_digits t else s
  | _ => s
  end.

(** Optional exponent: [e] or [E], an optional sign, at least one digit. *)
Definition skip_exp (s : pystr) : pystr :=
  match s with
  | e :: t =>
      if (e =? 101) || (e =? 69) then
        let t1 := match t with
                  | sg :: t' => if (sg =? 43) || (sg =? 45) then t' else t
                  | [] => t
                  end in
        match t1 with
        | d :: t2 => if is_digit d then skip_digits t2 else s
        | [] => s
        end
      else s
  | [] => s
  end.

(** The number grammar: an optional minus sign, then a zero or a non-zero
    digit followed by digits, then the optional fraction and exponent.
    Returns the input after the number, if one starts here. *)
Definition match_number (s : pystr) : option pystr :=
  let s1 := match s with
            | m :: t => if m =? 45 then t else s
            | [] => s
            end in
  match s1 with
  | c :: t =>
      if c =? 48 then Some (skip_exp (skip_frac t))
      else if (49 <=? c) && (c <=? 57) then
        Some (skip_exp (skip_frac (skip_digits t)))
      else None
  | [] => None
  end.

Definition literal (word : string) (v : value) (s : pystr)
    : option (value * pystr) :=
  if py_startswith s (lit word) then Some (v, drop (String.length word) s)
  else None.

(** [scan_once] with the object and array loops it calls back into.
    [members] is entered after the opening quote of a key, [elements] at
    the first character of an element.  Each call consumes input before it
    recurses, so the length of the input is enough [fuel]. *)
Fixpoint scan_once (fuel : nat) (s : pystr) : result (value * pystr) :=
  match fuel with
  | O => Raise JSONDecodeError
  | S fuel' =>
      match s with
      | [] => Raise JSONDecodeError
      | c :: s1 =>
          if c =? 34 then
            let* (str, rest) := scanstring s1 in Ok (Str str, rest)
          else if c =? 123 then
            match skip_ws s1 with
            | d :: s2 =>
                if d =? 125 then Ok (Obj [], s2)
                else if d =? 34 then members fuel' s2 []
                else Raise JSONDecodeError
            | [] => Raise JSONDecodeError
            end
          else if c =? 91 then
            match skip_ws s1 with
            | d :: s2 =>
                if d =? 93 then Ok (Arr [], s2)
                else elements fuel' (d :: s2) []
            | [] => Raise JSONDecodeError
            end
          else
            match literal "null" Null s, literal "true" (Bool true) s,
                  literal "false" (Bool false) s, literal "NaN" Number s,
                  literal "Infinity" Number s, literal "-Infinity" Number s with
            | Some r, _, _, _, _, _ | _, Some r, _, _, _, _
            | _, _, Some r, _, _, _ | _, _, _, Some r, _, _
            | _, _, _, _, Some r, _ | _, _, _, _, _, Some r => Ok r
            | _, _, _, _, _, _ =>
                match match_number s with
                | Some rest => Ok (Number, rest)
                | None => Raise JSONDecodeError
                end
            end
      end
  end
with members (fuel : nat) (s : pystr) (acc : list (pystr * value))
    : result (value * pystr) :=
  match fuel with
  | O => Raise JSONDecodeError
  | S fuel' =>
      let* (key, r) := scanstring s in
      match skip_ws r with
      | colon :: r2 =>
          if colon =? 58 then
            let* (v, r4) := scan_once fuel' (skip_ws r2) in
            match skip_ws r4 with
            | d :: r6 =>
                if d =? 125 then Ok (Obj (acc ++ [(key, v)]), r6)
                else if d =? 44 then
                  match skip_ws r6 with
                  | q :: r7 =>
                      if q =? 34 then members fuel' r7 (acc ++ [(key, v)])
                      else Raise JSONDecodeError
                  | [] => Raise JSONDecodeError
                  end
                else Raise JSONDecodeError
            | [] => Raise JSONDecodeError
            end
          else Raise JSONDecodeError
      | [] => Raise JSONDecodeError
      end
  end
with elements (fuel : nat) (s : pystr) (acc : list value)
    : result (value * pystr) :=
  match fuel with
  | O => Raise JSONDecodeError
  | S fuel' =>
      let* (v, r) := scan_once fuel' s in
      match skip_ws r with
      | d :: r2 =>
          if d =? 93 then Ok (Arr (acc ++ [v]), r2)
          else if d =? 44 then elements fuel' (skip_ws r2) (acc ++ [v])
          else Raise JSONDecodeError
      | [] => Raise JSONDecodeError
      end
  end.

(** [json.loads(s)]: no byte-order mark, one document, nothing after it
    but whitespace. *)
Definition loads (s : pystr) : result value :=
  if py_startswith s [0xFEFF] then Raise JSONDecodeError
  else
    let* (v, rest) := scan_once (S (length s)) (skip_ws s) in
    match skip_ws rest with
    | [] => Ok v
    | _ :: _ => Raise JSONDecodeError
    end.

(** The dictionary Python builds from the members of an object whose values
    are all strings (a later duplicate of a key replaces the earlier one). *)
Definition as_path_map (v : value) : option (gmap pystr pystr) :=
  match v with
  | Obj ms =>
      foldl (fun acc kv =>
               match acc, kv.2 with
               | Some m, Str p => Some (<[kv.1 := p]> m)
               | _, _ => None
               end) (Some ∅) ms
  | _ => None
  end.

(** *** The shape of an encoded dictionary

    The text of a member after the opening quote of its key, the text of
    the members that follow the first one, and the member [json.load]
    builds from a pair of strings. *)
Definition member_body (kv : pystr * pystr) : pystr :=
  flat_map escape_char kv.1 ++ [34] ++ key_separator ++ encode_basestring kv.2.

Definition members_tail (items : list (pystr * pystr)) : pystr :=
  flat_map (fun kv => item_separator ++ [34] ++ member_body kv) items.

Definition to_member (kv : pystr * pystr) : pystr * value := (kv.1, Str kv.2).

(** [d[k] = v] *)
Definition dict_insert (m : gmap pystr pystr) (kv : pystr * pystr)
    : gmap pystr pystr := <[kv.1 := kv.2]> m.

End Json.

(** ** The file system, the clock and the text layer of [open] *)

(** Regular files by path, the paths [open] refuses for writing or for
    reading, and the reading of the clock formatted by
    [strftime("%Y%m%d%H%M%S")].  Directories are not modelled: the output
    directory is taken to exist once [os.makedirs] has run. *)
Record World : Type := mkWorld {
  files : gmap pystr pybytes;
  write_protected : gset pystr;
  read_protected : gset pystr;
  clock : pystr
}.

Definition set_files (w : World) (fs : gmap pystr pybytes) : World :=
  {| files := fs; write_protected := write_protected w;
     read_protected := read_protected w; clock := clock w |}.

(** [os.path.exists(p)] *)
Definition path_exists (w : World) (p : pystr) : bool :=
  bool_decide (is_Some (files w !! p)).

(** [os.remove(p)] *)
Definition remove (w : World) (p : pystr) : World :=
  set_files w (delete p (files w)).

Definition write_file (w : World) (p : pystr) (content : pybytes) : World :=
  set_files w (<[p := content]> (files w)).

(** Reading in text mode turns [\r\n] and a lone [\r] into [\n]. *)
Fixpoint universal_newlines (s : pystr) : pystr :=
  match s with
  | [] => []
  | c :: s' =>
      if c =? 13 then
        10 :: match s' with
              | d :: s'' =>
                  if d =? 10 then universal_newlines s''
                  else universal_newlines s'
              | [] => []
              end
      else c :: universal_newlines s'
  end.

(** [open(p, 'r', encoding='utf-8')] followed by [f.read()] *)
Definition read_text (w : World) (p : pystr) : result pystr :=
  if bool_decide (p ∈ read_protected w) then Raise OSError
  else
    match files w !! p with
    | None => Raise OSError
    | Some bs => let* text := Utf8.decode bs in Ok (universal_newlines text)
    end.

(** Successive [f.write(chunk)] on a text file: each chunk is encoded as a
    whole; the first chunk the codec refuses ends the writing, the octets
    of the earlier chunks stay in the file. *)
Fixpoint write_chunks (chunks : list pystr) (written : pybytes)
    : pybytes * option exn :=
  match chunks with
  | [] => (written, None)
  | ch :: rest =>
      match Utf8.encode ch with
      | Ok bs => write_chunks rest (written ++ bs)
      | Raise e => (written, Some e)
      end
  end.

(** ** Configuration ([src/config.py] and the defaults of [main.py]) *)

Record Config : Type := mkConfig {
  DEFAULT_VOICE : pystr;
  DEFAULT_RATE : pystr;
  DEFAULT_VOLUME : pystr;
  OUTPUT_DIR : pystr;
  AUTO_PLAY : bool
}.

(** [config.py] *)
Definition config_py : Config :=
  {| DEFAULT_VOICE := lit "henri"; DEFAULT_RATE := lit "-25%";
     DEFAULT_VOLUME := lit "+0%"; OUTPUT_DIR := lit "samples";
     AUTO_PLAY := true |}.

(** The [except ImportError] branch of [main.py] *)
Definition config_builtin : Config :=
  {| DEFAULT_VOICE := lit "denise"; DEFAULT_RATE := lit "+0%";
     DEFAULT_VOLUME := lit "+0%"; OUTPUT_DIR := lit "samples";
     AUTO_PLAY := true |}.

(** The [try: from config import ...] at the head of [main.py] *)
Definition module_config (config_importable : bool) : Config :=
  if config_importable then config_py else config_builtin.

Definition FRENCH_VOICES : gmap pystr pystr :=
  list_to_map
    [ (lit "henri", lit "fr-FR-HenriNeural");
      (lit "denise", lit "fr-FR-DeniseNeural");
      (lit "eloise", lit "fr-FR-EloiseNeural");
      (lit "remy", lit "fr-FR-RemyMultilingualNeural");
      (lit "vivienne", lit "fr-FR-VivienneMultilingualNeural") ].

(** ** The session object *)

Record FrenchTTS : Type := mkFrenchTTS {
  voice : pystr;
  rate : pystr;
  volume : pystr;
  output_dir : pystr;
  auto_play : bool;
  use_cache : bool;
  cache_file : pystr;
  cache : gmap pystr pystr
}.

Definition set_cache (self : FrenchTTS) (c : gmap pystr pystr) : FrenchTTS :=
  {| voice := voice self; rate := rate self; volume := volume self;
     output_dir := output_dir self; auto_play := auto_play self;
     use_cache := use_cache self; cache_file := cache_file self;
     cache := c |}.

(** What [speak] hands to the speech service. *)
Record SynthRequest : Type := mkSynthRequest {
  req_text : pystr;
  req_voice : pystr;
  req_rate : pystr;
  req_volume : pystr;
  req_path : pystr
}.

(** What a call shows to the outside, in order: the lines it prints (by
    kind, with the value they carry), the requests to the speech service
    and the files handed to the player. *)
Inductive message : Type :=
  | MsgUsingCache (name : pystr)
  | MsgSpeaker
  | MsgBar
  | MsgDone
  | MsgGenerated (path : pystr)
  | MsgCacheSaveFailed (e : exn)
  | MsgCleared (count : nat)
  | MsgPlayFailed
  | MsgPlayManually (path : pystr).

Inductive event : Type :=
  | EvPrint (m : message)
  | EvSynth (r : SynthRequest)
  | EvPlay (path : pystr).

(** Outcome of the synthesis service: the constructor of the request
    object refuses the request; or saving fails, possibly leaving a partial
    file; or the audio is written to the requested path. *)
Inductive synth_outcome : Type :=
  | SynthRejected
  | SynthFail (partial : option pybytes)
  | SynthOk (audio : pybytes).

(** Values a method can return. *)
Inductive pyval : Type :=
  | PyNone
  | PyInt (n : Z)
  | PyStr (s : pystr).

(** Result of a method call: returned value or exception, the session and
    the world after the call, and what the call showed. *)
Record Run (A : Type) : Type := mkRun {
  ret : result A;
  self_after : FrenchTTS;
  world_after : World;
  trace : list event
}.
Arguments mkRun {A} _ _ _ _.
Arguments ret {A} _.
Arguments self_after {A} _.
Arguments world_after {A} _.
Arguments trace {A} _.

(** [x or d] on an optional string argument *)
Definition py_or (x : option pystr) (d : pystr) : pystr :=
  match x with
  | Some (c :: s) => c :: s
  | _ => d
  end.

(** [json.load(f)] on the text of the file *)
Definition json_load (w : World) (p : pystr) : result Json.value :=
  let* text := read_text w p in Json.loads text.

(** [FrenchTTS._load_cache]; the bare [except] catches whatever [open] and
    [json.load] raise. *)
Definition _load_cache (cache_file : pystr) (w : World) : result Json.value :=
  if path_exists w cache_file then
    match json_load w cache_file with
    | Ok v => Ok v
    | Raise _ => Ok (Json.Obj [])
    end
  else Ok (Json.Obj []).

(** [FrenchTTS._save_cache]: opening for writing truncates the file; a
    failure is printed, not raised.  The store being a finite map, its
    items are written in the order of [map_to_list] where Python follows
    the order of insertion; the order shows in the octets of the file
    only, not in the mapping read back. *)
Definition _save_cache (self : FrenchTTS) (w : World) : World * list event :=
  if bool_decide (cache_file self ∈ write_protected w) then
    (w, [EvPrint (MsgCacheSaveFailed OSError)])
  else
    let '(written, err) :=
      write_chunks (Json.iterencode (map_to_list (cache self))) [] in
    (write_file w (cache_file self) written,
     match err with
     | None => []
     | Some e => [EvPrint (MsgCacheSaveFailed e)]
     end).

(** [FrenchTTS._get_cache_key] *)
Definition _get_cache_key (self : FrenchTTS) (text : pystr) : result pystr :=
  let content :=
    text ++ lit "|" ++ voice self ++ lit "|" ++ rate self
         ++ lit "|" ++ volume self in
  let* data := Utf8.encode content in
  Ok (take 16 (md5_hexdigest data)).

(** [FrenchTTS.clear_cache]: the count goes to the printed message; the
    method has no [return] statement. *)
Definition clear_cache (self : FrenchTTS) (w : World) : Run pyval :=
  let count := size (cache self) in
  let self' := set_cache self ∅ in
  let w' := if path_exists w (cache_file self)
            then remove w (cache_file self) else w in
  mkRun (Ok PyNone) self' w' [EvPrint (MsgCleared count)].

(** [FrenchTTS.__init__].  The store of a session is typed here as a
    mapping from strings to strings, which is what the program itself
    writes; the answer is [None] when the cache file holds a well-formed
    JSON document of another shape: such a session is outside this model.
    The call of [os.makedirs] has no counterpart, directories not being
    modelled. *)
Definition __init__ (cfg : Config) (voice rate volume : option pystr)
    (use_cache : bool) (w : World) : option (result FrenchTTS) :=
  let voice := py_or voice (DEFAULT_VOICE cfg) in
  let rate := py_or rate (DEFAULT_RATE cfg) in
  let volume := py_or volume (DEFAULT_VOLUME cfg) in
  match FRENCH_VOICES !! lit "denise" with
  | None => Some (Raise KeyError)
  | Some fallback =>
      let cache_file := posixpath.join (OUTPUT_DIR cfg) (lit ".cache.json") in
      match _load_cache cache_file w with
      | Raise e => Some (Raise e)
      | Ok loaded =>
          match Json.as_path_map loaded with
          | None => None
          | Some m =>
              Some (Ok {| voice := default fallback (FRENCH_VOICES !! voice);
                          rate := rate; volume := volume;
                          output_dir := OUTPUT_DIR cfg;
                          auto_play := AUTO_PLAY cfg;
                          use_cache := use_cache;
                          cache_file := cache_file;
                          cache := m |})
          end
      end
  end.

(** ** Notions used in the statements *)

(** Every key and every path of the store can be written in UTF-8. *)
Definition store_encodable (m : gmap pystr pystr) : Prop :=
  map_Forall (fun k v => Utf8.encodable k /\ Utf8.encodable v) m.

(** The mapping a fresh [_load_cache] finds on disk, when it is an object
    of strings. *)
Definition disk_mapping (cache_file : pystr) (w : World)
    : option (gmap pystr pystr) :=
  match _load_cache cache_file w with
  | Ok v => Json.as_path_map v
  | Raise _ => None
  end.


Definition ends_with_mp3 (p : pystr) : bool := py_endswith p (lit ".mp3").

(** ** Concrete sessions and worlds *)

Definition henri_session (use_cache : bool) (store : gmap pystr pystr)
    : FrenchTTS :=
  {| voice := lit "fr-FR-HenriNeural"; rate := lit "-25%";
     volume := lit "+0%"; output_dir := lit "samples"; auto_play := true;
     use_cache := use_cache; cache_file := lit "samples/.cache.json";
     cache := store |}.

(** The key of the text [Bonjour] in [henri_session]. *)
Definition bonjour_key : pystr := lit "0ef3b100d9f84b94".

Definition world_of (fs : gmap pystr pybytes) : World :=
  {| files := fs; write_protected := ∅; read_protected := ∅;
     clock := lit "20240101120000" |}.

Definition synth_ok : SynthRequest -> World -> synth_outcome :=
  fun _ _ => SynthOk [73; 68; 51].
Definition player_ok : pystr -> World -> bool := fun _ _ => true.

(** Stores and texts of the concrete runs. *)
Definition stale_store : gmap pystr pystr :=
  {[ bonjour_key := lit "samples/gone.mp3" ]}.

Definition surrogate_store : gmap pystr pystr :=
  {[ lit "k" := [0xDC80] ]}.

Definition notes_store : gmap pystr pystr :=
  {[ bonjour_key := lit "samples/notes.txt" ]}.

Definition bonjour_madame : pystr :=
  lit "Bonjour Madame, je voudrais un caf" ++ [233; 46].

Definition bonjour_mp3 : pystr := lit "samples/20240101120000_Bonjour.mp3".

Section Collaborators.

(** [str.isalnum] of the Unicode character database. *)
Variable uni_alnum : N -> bool.
(** The speech service: [edge_tts.Communicate(...)] and its [save]. *)
Variable synthesize : SynthRequest -> World -> synth_outcome.
(** The audio player: whether playing the file goes through; it is taken
    to come back, with or without an [Exception]. *)
Variable playback : pystr -> World -> bool.

(** [\w] *)
Definition re_word (c : N) : bool := uni_alnum c || (c =? 95).

(** The characters the pattern [[^\w\s\-\']] matches. *)
Definition re_illegal (c : N) : bool :=
  negb (re_word c || py_isspace c || (c =? 45) || (c =? 39)).

(** [FrenchTTS._sanitize_filename] *)
Definition _sanitize_filename (text : pystr) (max_length : nat) : pystr :=
  let cleaned := re_sub_class re_illegal [] text in
  let cleaned := py_strip (re_sub_class_plus py_isspace (lit " ") cleaned) in
  let words := take 4 (py_split cleaned) in
  let result := py_join (lit "_") words in
  let result :=
    if (max_length <? length result)%nat
    then py_rstrip_chars (lit "_") (take max_length result)
    else result in
  match result with
  | [] => lit "audio"
  | _ :: _ => result
  end.

(** [FrenchTTS._play_audio]: a failure of the player is printed. *)
Definition _play_audio (file_path : pystr) (w : World) : list event :=
  EvPlay file_path ::
    (if playback file_path w then []
     else [EvPrint MsgPlayFailed; EvPrint (MsgPlayManually file_path)]).

(** The output file name of [FrenchTTS.speak]: generated from the clock and
    the text when the caller gives none, and completed with the suffix. *)
Definition output_filename (text : pystr) (filename : option pystr)
    (w : World) : pystr :=
  let filename :=
    match filename with
    | None => clock w ++ lit "_" ++ _sanitize_filename text 30 ++ lit ".mp3"
    | Some f => f
    end in
  if py_endswith filename (lit ".mp3") then filename
  else filename ++ lit ".mp3".

Definition output_path (self : FrenchTTS) (text : pystr)
    (filename : option pystr) (w : World) : pystr :=
  posixpath.join (output_dir self) (output_filename text filename w).

Definition synth_request (self : FrenchTTS) (text path : pystr) : SynthRequest :=
  {| req_text := text; req_voice := voice self; req_rate := rate self;
     req_volume := volume self; req_path := path |}.

(** The second half of [FrenchTTS.speak] (from the choice of the file name
    on), reached on a miss, on a stale entry and when the cache is not
    consulted. *)
Definition speak_generate (self : FrenchTTS) (cache_key text : pystr)
    (filename : option pystr) (play verbose : bool) (w : World) : Run pystr :=
  let output_path := output_path self text filename w in
  let req := synth_request self text output_path in
  let ev0 := (if verbose then [EvPrint MsgSpeaker] else []) ++ [EvSynth req] in
  match synthesize req w with
  | SynthRejected => mkRun (Raise SynthesisError) self w ev0
  | SynthFail partial =>
      let w1 := match partial with
                | Some bs => write_file w output_path bs
                | None => w
                end in
      mkRun (Raise SynthesisError) self w1
            (ev0 ++ (if verbose then [EvPrint MsgBar] else []))
  | SynthOk audio =>
      let w1 := write_file w output_path audio in
      let ev1 :=
        if verbose
        then [EvPrint MsgBar; EvPrint MsgDone; EvPrint (MsgGenerated output_path)]
        else [] in
      let self2 :=
        if use_cache self
        then set_cache self (<[cache_key := output_path]> (cache self))
        else self in
      let '(w2, ev2) :=
        if use_cache self then _save_cache self2 w1 else (w1, []) in
      let ev3 := if play then _play_audio output_path w2 else [] in
      mkRun (Ok output_path) self2 w2 (ev0 ++ ev1 ++ ev2 ++ ev3)
  end.

(** [FrenchTTS.speak]; the coroutine runs to its end without
    interleaving, the [await] being its only suspension point. *)
Definition speak (self : FrenchTTS) (text : pystr) (filename : option pystr)
    (play : option bool) (force_regenerate verbose : bool) (w : World)
    : Run pystr :=
  let play := default (auto_play self) play in
  match _get_cache_key self text with
  | Raise e => mkRun (Raise e) self w []
  | Ok cache_key =>
      let hit :=
        if use_cache self && negb force_regenerate
        then cache self !! cache_key else None in
      match hit with
      | Some cached_path =>
          if path_exists w cached_path then
            mkRun (Ok cached_path) self w
              ((if verbose
                then [EvPrint (MsgUsingCache (posixpath.basename cached_path))]
                else [])
               ++ (if play then _play_audio cached_path w else []))
          else
            speak_generate (set_cache self (delete cache_key (cache self)))
                           cache_key text filename play verbose w
      | None => speak_generate self cache_key text filename play verbose w
      end
  end.

(** *** The sanitisation rule in the words of the specification

    The rule as the specification states it: keep letters, digits,
    whitespace, hyphen and apostrophe; collapse whitespace; trim; first four
    words; join with underscores; cut to 30 characters and trim trailing
    underscores; placeholder when nothing is left. *)
Definition spec_keep (c : N) : bool :=
  uni_alnum c || py_isspace c || (c =? 45) || (c =? 39).

Definition sanitize_spec (text : pystr) : pystr :=
  let kept := List.filter spec_keep text in
  let collapsed := re_sub_class_plus py_isspace (lit " ") kept in
  let trimmed := py_strip collapsed in
  let words := take 4 (py_split trimmed) in
  let joined := py_join (lit "_") words in
  let cut := py_rstrip_chars (lit "_") (take 30 joined) in
  match cut with
  | [] => lit "audio"
  | _ :: _ => cut
  end.

(** The same rule with the two changes the code makes: the underscore is
    kept as well, and the cut with its trimming happens only when the
    joined words are longer than 30 characters. *)
Definition amended_keep (c : N) : bool := spec_keep c || (c =? 95).

Definition sanitize_amended (text : pystr) : pystr :=
  let kept := List.filter amended_keep text in
  let collapsed := re_sub_class_plus py_isspace (lit " ") kept in
  let trimmed := py_strip collapsed in
  let words := take 4 (py_split trimmed) in
  let joined := py_join (lit "_") words in
  let cut :=
    if (30 <? length joined)%nat
    then py_rstrip_chars (lit "_") (take 30 joined)
    else joined in
  match cut with
  | [] => lit "audio"
  | _ :: _ => cut
  end.

End Collaborators.

(** ** The other methods and the callers

    [show_cache_info], [list_voices], [quick_speak], [interactive_mode]
    and [demo_mode]. *)

Definition set_voice (self : FrenchTTS) (v : pystr) : FrenchTTS :=
  {| voice := v; rate := rate self; volume := volume self;
     output_dir := output_dir self; auto_play := auto_play self;
     use_cache := use_cache self; cache_file := cache_file self;
     cache := cache self |}.

Definition set_rate (self : FrenchTTS) (r : pystr) : FrenchTTS :=
  {| voice := voice self; rate := r; volume := volume self;
     output_dir := output_dir self; auto_play := auto_play self;
     use_cache := use_cache self; cache_file := cache_file self;
     cache := cache self |}.

(** The clock read at another moment. *)
Definition set_clock (w : World) (c : pystr) : World :=
  {| files := files w; write_protected := write_protected w;
     read_protected := read_protected w; clock := c |}.

(** The requests a trace holds, in order. *)
Definition synth_requests (tr : list event) : list SynthRequest :=
  omap (fun e => match e with EvSynth req => Some req | _ => None end) tr.

(** The condition under which [speak] answers from the store: the test of
    line 162 followed by the test of line 165. *)
Definition cache_hit (self : FrenchTTS) (w : World) (cache_key : pystr)
    (force_regenerate : bool) : bool :=
  use_cache self && negb force_regenerate
  && match cache self !! cache_key with
     | Some cached_path => path_exists w cached_path
     | None => false
     end.

(** The items of the literal [FRENCH_VOICES], in the order of the source. *)
Definition FRENCH_VOICES_items : list (pystr * pystr) :=
  [ (lit "henri", lit "fr-FR-HenriNeural");
    (lit "denise", lit "fr-FR-DeniseNeural");
    (lit "eloise", lit "fr-FR-EloiseNeural");
    (lit "remy", lit "fr-FR-RemyMultilingualNeural");
    (lit "vivienne", lit "fr-FR-VivienneMultilingualNeural") ].

(** [needle in hay] on strings *)
Fixpoint py_in (needle hay : pystr) : bool :=
  py_startswith hay needle
  || match hay with
     | [] => false
     | _ :: hay' => py_in needle hay'
     end.

(** [l[-n:]] for a positive [n] *)
Definition py_last_n {A} (n : nat) (l : list A) : list A :=
  drop (length l - n) l.

(** [enumerate(l, start)] *)
Definition py_enumerate {A} (start : nat) (l : list A) : list (nat * A) :=
  zip (seq start (length l)) l.

(** The lines the two listing methods and the loop print, by kind, with the
    values they carry. *)
Inductive loop_exn : Type :=
  | CallRaised (e : exn)
  | IndexError.

Inductive ui_line : Type :=
  | UiCacheHeader
  | UiCacheFile (path : pystr)
  | UiCacheCount (n : nat)
  | UiRecentHeader
  | UiRecent (i : nat) (filename : pystr)
  | UiBlank
  | UiVoicesHeader
  | UiRule
  | UiVoice (name gender voice_id : pystr)
  | UiGoodbye
  | UiVoiceSet (name : pystr)
  | UiVoiceUnknown (name : pystr)
  | UiRateSet (rate : pystr)
  | UiHelp
  | UiError (e : loop_exn)
  | UiBanner
  | UiPrompt
  | UiDemoHeader
  | UiDemoItem (i : nat) (name sentence : pystr)
  | UiDemoDone.

Inductive ui_event : Type :=
  | UiPrint (l : ui_line)
  | UiCall (e : event).

Definition male : pystr := [30007; 22768].
Definition female : pystr := [22899; 22768].

Definition gender_of (voice_id : pystr) : pystr :=
  if py_in (lit "Henri") voice_id || py_in (lit "Remy") voice_id
  then male else female.

(** [FrenchTTS.list_voices] *)
Definition list_voices : list ui_line :=
  [UiVoicesHeader; UiRule]
    ++ map (fun nv => UiVoice nv.1 (gender_of nv.2) nv.2) FRENCH_VOICES_items
    ++ [UiBlank].

(** ASCII letters to lower case.  For the three words of the loop this is
    what [str.lower] decides: the only character outside ASCII whose lower
    case is made of ASCII characters is the Kelvin sign, which gives [k]. *)
Definition ascii_lower (c : N) : N :=
  if (65 <=? c) && (c <=? 90) then c + 32 else c.

(** [text.lower() in ['quit', 'exit', 'q']] *)
Definition is_quit_word (text : pystr) : bool :=
  bool_decide (map ascii_lower text ∈ [lit "quit"; lit "exit"; lit "q"]).

(** What one turn of the loop leaves: whether the loop goes on, the session,
    the world and what was shown. *)
Record Turn : Type := mkTurn {
  continue_loop : bool;
  tts_after : FrenchTTS;
  turn_world : World;
  turn_trace : list ui_event
}.

Section Callers.

Variable uni_alnum : N -> bool.
Variable synthesize : SynthRequest -> World -> synth_outcome.
Variable playback : pystr -> World -> bool.
(** [list(d.items())]: the items in the order of insertion, which the
    finite map does not record. *)
Variable dict_items : gmap pystr pystr -> list (pystr * pystr).

(** [FrenchTTS.show_cache_info] *)
Definition show_cache_info (self : FrenchTTS) : list ui_line :=
  [UiCacheHeader; UiCacheFile (cache_file self);
   UiCacheCount (size (cache self))]
    ++ (if bool_decide (cache self = ∅) then []
        else UiRecentHeader ::
             map (fun ip => UiRecent ip.1 (posixpath.basename ip.2.2))
                 (py_enumerate 1 (py_last_n 5 (dict_items (cache self)))))
    ++ [UiBlank].

(** [quick_speak]: a new session for the voice, one call of [speak] with
    its default arguments.  [None] as for [__init__]. *)
Definition quick_speak (cfg : Config) (text voice : pystr) (w : World)
    : option (result (Run pystr)) :=
  match __init__ cfg (Some voice) None None true w with
  | None => None
  | Some (Raise e) => Some (Raise e)
  | Some (Ok tts) =>
      Some (Ok (speak uni_alnum synthesize playback tts text
                      None None false true w))
  end.

(** The body of the [while True] of [interactive_mode] for one line read by
    [input]: the special commands, then the text to speak.  [Exception]s
    are printed and the loop goes on; the interruption from the keyboard
    has no counterpart here, and [print] is taken to succeed. *)
Definition interactive_turn (tts : FrenchTTS) (raw : pystr) (w : World)
    : Turn :=
  let text := py_strip raw in
  if is_quit_word text then mkTurn false tts w [UiPrint UiGoodbye]
  else
    match text with
    | [] => mkTurn true tts w []
    | _ :: _ =>
        if py_startswith text (lit "/voice ") then
          match py_split text !! 1%nat with
          | None => mkTurn true tts w [UiPrint (UiError IndexError)]
          | Some voice =>
              match FRENCH_VOICES !! voice with
              | Some voice_id =>
                  mkTurn true (set_voice tts voice_id) w
                         [UiPrint (UiVoiceSet voice)]
              | None =>
                  mkTurn true tts w
                         (UiPrint (UiVoiceUnknown voice)
                            :: map UiPrint list_voices)
              end
          end
        else if py_startswith text (lit "/rate ") then
          match py_split text !! 1%nat with
          | None => mkTurn true tts w [UiPrint (UiError IndexError)]
          | Some rate =>
              mkTurn true (set_rate tts rate) w [UiPrint (UiRateSet rate)]
          end
        else if bool_decide (text = lit "/help") then
          mkTurn true tts w [UiPrint UiHelp]
        else if bool_decide (text = lit "/list") then
          mkTurn true tts w (map UiPrint list_voices)
        else if bool_decide (text = lit "/cache") then
          mkTurn true tts w (map UiPrint (show_cache_info tts))
        else if bool_decide (text = lit "/clear") then
          let r := clear_cache tts w in
          mkTurn true (self_after r) (world_after r) (map UiCall (trace r))
        else
          let force_regenerate := py_startswith text (lit "!") in
          let text :=
            if force_regenerate then py_strip (drop 1 text) else text in
          let r := speak uni_alnum synthesize playback tts text None None
                         force_regenerate false w in
          mkTurn true (self_after r) (world_after r)
                 (map UiCall (trace r)
                    ++ match ret r with
                       | Ok _ => []
                       | Raise e => [UiPrint (UiError (CallRaised e))]
                       end)
    end.

(** The loop fed with the lines typed, each with the reading of the clock
    when it is handled, up to the first line that ends it. *)
Fixpoint interactive_lines (tts : FrenchTTS)
    (typed : list (pystr * pystr)) (w : World) : Turn :=
  match typed with
  | [] => mkTurn true tts w []
  | (raw, now) :: rest =>
      let t := interactive_turn tts raw (set_clock w now) in
      if continue_loop t then
        let t' := interactive_lines (tts_after t) rest (turn_world t) in
        mkTurn (continue_loop t') (tts_after t') (turn_world t')
               (turn_trace t ++ turn_trace t')
      else t
  end.

End Callers.

(** ** Notions and data of the further statements *)

(** The identifiers of the table [FRENCH_VOICES]. *)
Definition table_voice (voice_id : pystr) : Prop :=
  exists name, FRENCH_VOICES !! name = Some voice_id.


(** The requests to the speech service among what the loop showed. *)
Definition ui_requests (tr : list ui_event) : list SynthRequest :=
  omap (fun e => match e with UiCall (EvSynth req) => Some req | _ => None end)
       tr.

(** Data of the concrete runs of the callers. *)
Definition later : pystr := lit "20240101120500".

Definition cached_store : gmap pystr pystr :=
  {[ bonjour_key := bonjour_mp3 ]}.

(** The first run of [speak] on [Bonjour] in an empty world. *)
Definition first_bonjour : Run pystr :=
  speak latin1_alnum synth_ok player_ok (henri_session true ∅)
        (lit "Bonjour") None None false true (world_of ∅).

Definition bonjour_request : SynthRequest :=
  synth_request (henri_session true ∅) (lit "Bonjour") bonjour_mp3.

(** Two lines typed at the prompt. *)
Definition two_lines : list (pystr * pystr) :=
  [ (lit "/voice remy", lit "20240101120000");
    (lit "Bonjour", later) ].

(** An entry the cache file holds and whose audio file exists. *)
Definition settled (cache_file : pystr) (w : World) (key path : pystr)
    : Prop :=
  exists m,
    disk_mapping cache_file w = Some m
    /\ m !! key = Some path
    /\ path_exists w path = true.

(** [SAMPLE_SENTENCES] *)
Definition SAMPLE_SENTENCES : list pystr :=
  [ bonjour_madame;
    lit "Je m'appelle Paul, et toi?";
    lit "Je parle arabe avec ma voisine marocaine.";
    lit "Est-ce que Paris est propre?";
    lit "Au revoir!";
    lit "S'il vous pla" ++ [238] ++ lit "t.";
    lit "Embrasse-moi, s'il te pla" ++ [238] ++ lit "t.";
    lit "Leo mange souvent ici.";
    lit "Tu connais Lisa? Elle travaille ici.";
    lit "Je travaille aussi ici." ].

(** The list [voices] of [demo_mode] and [voices[i % len(voices)]]. *)
Definition demo_voices : list pystr :=
  [lit "denise"; lit "henri"; lit "eloise"].

Definition demo_voice (i : nat) : pystr :=
  default [] (demo_voices !! (i mod length demo_voices)%nat).

(** [str(i)] and [f"{i:02d}"] for a natural number *)
Definition py_str_nat (i : nat) : pystr :=
  lit (NilZero.string_of_uint (Nat.to_uint i)).

Definition fmt_02d (i : nat) : pystr :=
  repeat 48 (2 - length (py_str_nat i)) ++ py_str_nat i.

(** [f"demo_{i:02d}_{voice}.mp3"] *)
Definition demo_filename (i : nat) (voice : pystr) : pystr :=
  lit "demo_" ++ fmt_02d i ++ lit "_" ++ voice ++ lit ".mp3".

(** What a run of the demonstration leaves: the exception that ended it, if
    any, the paths returned so far, the world and what was shown. *)
Record Demo : Type := mkDemo {
  demo_raised : option exn;
  demo_paths : list pystr;
  demo_world : World;
  demo_trace : list ui_event
}.

Section Programs.

Variable uni_alnum : N -> bool.
Variable synthesize : SynthRequest -> World -> synth_outcome.
Variable playback : pystr -> World -> bool.
Variable dict_items : gmap pystr pystr -> list (pystr * pystr).

(** [interactive_mode] on the lines typed: the banner, a session with the
    defaults, the list of voices, the prompt, then the loop.  The history
    file of [readline] has no counterpart. *)
Definition interactive_mode (cfg : Config) (typed : list (pystr * pystr))
    (w : World) : option (result Turn) :=
  match __init__ cfg None None None true w with
  | None => None
  | Some (Raise e) => Some (Raise e)
  | Some (Ok tts) =>
      let t := interactive_lines uni_alnum synthesize playback dict_items
                                 tts typed w in
      Some (Ok (mkTurn (continue_loop t) (tts_after t) (turn_world t)
                       (map UiPrint ([UiBanner] ++ list_voices ++ [UiPrompt])
                          ++ turn_trace t)))
  end.

(** The [for] loop of [demo_mode] over the numbered sentences: a new
    session for the voice of the turn, the sentence announced, then spoken
    to a file named after the turn; an exception ends the run.  The file
    names being given, the clock is not read, and the pauses have no
    counterpart. *)
Fixpoint demo_loop (cfg : Config) (items : list (nat * pystr)) (w : World)
    : option Demo :=
  match items with
  | [] => Some (mkDemo None [] w [])
  | (i, sentence) :: rest =>
      let voice := demo_voice i in
      match __init__ cfg (Some voice) None None true w with
      | None => None
      | Some (Raise e) => Some (mkDemo (Some e) [] w [])
      | Some (Ok tts) =>
          let r := speak uni_alnum synthesize playback tts sentence
                         (Some (demo_filename i voice)) (Some true)
                         false true w in
          let shown :=
            UiPrint (UiDemoItem i voice sentence) :: map UiCall (trace r) in
          match ret r with
          | Raise e => Some (mkDemo (Some e) [] (world_after r) shown)
          | Ok p =>
              match demo_loop cfg rest (world_after r) with
              | None => None
              | Some d =>
                  Some (mkDemo (demo_raised d) (p :: demo_paths d)
                               (demo_world d) (shown ++ demo_trace d))
              end
          end
      end
  end.

(** [demo_mode]: the first six sentences, numbered from 1. *)
Definition demo_mode (cfg : Config) (w : World) : option Demo :=
  match demo_loop cfg (py_enumerate 1 (take 6 SAMPLE_SENTENCES)) w with
  | None => None
  | Some d =>
      Some (mkDemo (demo_raised d) (demo_paths d) (demo_world d)
                   ([UiPrint UiDemoHeader] ++ demo_trace d
                      ++ match demo_raised d with
                         | None => [UiPrint UiDemoDone]
                         | Some _ => []
                         end))
  end.

End Programs.

(** The cache file can be written and read, and a mapping it holds is made
    of encodable strings. *)
Definition cache_usable (cache_file : pystr) (w : World) : Prop :=
  (cache_file ∉ write_protected w)
  /\ (cache_file ∉ read_protected w)
  /\ forall m, disk_mapping cache_file w = Some m -> store_encodable m.

(** * Facts

    First the standard-library models (the codec, the digest, JSON, paths,
    strings), then the session methods, then the statements checked
    against the specification, then further properties of the methods and
    of their callers. *)

Ltac Zify.zify_post_hook ::= Z.to_euclidean_division_equations.

(** Turn boolean comparisons of the context into propositions. *)
Ltac nbool :=
  repeat match goal with
  | H : (_ <? _) = true |- _ => apply N.ltb_lt in H
  | H : (_ <? _) = false |- _ => apply N.ltb_ge in H
  | H : (_ <=? _) = true |- _ => apply N.leb_le in H
  | H : (_ <=? _) = false |- _ => apply N.leb_gt in H
  | H : (_ =? _) = true |- _ => apply N.eqb_eq in H
  | H : (_ =? _) = false |- _ => apply N.eqb_neq in H
  | H : _ && _ = true |- _ => apply andb_true_iff in H; destruct H
  | H : _ && _ = false |- _ => apply andb_false_iff in H
  | H : _ || _ = false |- _ => apply orb_false_iff in H; destruct H
  | H : _ || _ = true |- _ => apply orb_true_iff in H
  | H : negb _ = true |- _ => apply negb_true_iff in H
  | H : negb _ = false |- _ => apply negb_false_iff in H
  end.

(** Decide a boolean comparison in the goal from the arithmetic context. *)
Ltac ntrue :=
  repeat match goal with
  | |- context [?a <? ?b] =>
      first [ replace (a <? b) with true by (symmetry; apply N.ltb_lt; lia)
            | replace (a <? b) with false by (symmetry; apply N.ltb_ge; lia) ]
  | |- context [?a <=? ?b] =>
      first [ replace (a <=? b) with true by (symmetry; apply N.leb_le; lia)
            | replace (a <=? b) with false by (symmetry; apply N.leb_gt; lia) ]
  | |- context [?a =? ?b] =>
      first [ replace (a =? b) with true by (symmetry; apply N.eqb_eq; lia)
            | replace (a =? b) with false by (symmetry; apply N.eqb_neq; lia) ]
  end.

(** ** The codec: what is encoded decodes to itself *)

Module Utf8Facts.
Import Utf8.

Lemma encode_cp_Some c :
  c < 0x110000 -> is_surrogate c = false -> is_Some (encode_cp c).
Proof.
  intros Hc Hs. unfold encode_cp. rewrite Hs.
  repeat case_match; eauto. nbool. lia.
Qed.

Lemma decode_encode_cp c bs rest :
  encode_cp c = Some bs ->
  decode_cp (bs ++ rest) = Some (c, length bs) /\ (0 < length bs)%nat.
Proof.
  unfold encode_cp, is_surrogate.
  repeat case_match; intros [= <-]; nbool; cbn [app length decode_cp];
    (split; [| lia]);
    try match goal with
        | |- context [Some (?e, _)] =>
            lazymatch e with c => fail | _ => replace e with c by lia end
        end;
    unfold is_cont, is_surrogate;
    try match goal with H : _ \/ _ |- _ => destruct H; nbool end;
    ntrue; reflexivity.
Qed.

Lemma decode_fuel_step n bs :
  bs <> [] ->
  decode_fuel (S n) bs =
  match decode_cp bs with
  | None => Raise UnicodeDecodeError
  | Some (c, k) => let* rest := decode_fuel n (drop k bs) in Ok (c :: rest)
  end.
Proof. by destruct bs. Qed.

Lemma decode_fuel_encode s : forall bs n,
  encode s = Ok bs -> (length bs <= n)%nat -> decode_fuel n bs = Ok s.
Proof.
  induction s as [|c s IH]; intros bs n; cbn.
  - intros [= <-] _. by destruct n.
  - destruct (encode_cp c) as [b1|] eqn:Hc; [|done].
    destruct (encode s) as [b2|] eqn:Hs; [|done]. cbn. intros [= <-] Hn.
    destruct (decode_encode_cp c b1 b2 Hc) as [Hd Hl].
    rewrite length_app in Hn.
    destruct n as [|n]; [lia|].
    rewrite decode_fuel_step by (destruct b1; [cbn in Hl; lia | done]).
    rewrite Hd, drop_app_length. rewrite (IH b2 n); [done | done | lia].
Qed.

Lemma decode_encode s bs : encode s = Ok bs -> decode bs = Ok s.
Proof. intros H. apply decode_fuel_encode; [done | lia]. Qed.

Lemma encode_ok s : encodable s -> exists bs, encode s = Ok bs.
Proof.
  induction 1 as [|c s [Hc Hs] _ [bs IH]]; cbn; [eauto|].
  destruct (encode_cp_Some c Hc Hs) as [b Hb]. rewrite Hb, IH. cbn. eauto.
Qed.

Lemma encode_app s t bs bt :
  encode s = Ok bs -> encode t = Ok bt -> encode (s ++ t) = Ok (bs ++ bt).
Proof.
  revert bs. induction s as [|c s IH]; cbn; intros bs.
  - by intros [= <-].
  - destruct (encode_cp c); [|done]. destruct (encode s) eqn:Hs; [|done].
    cbn. intros [= <-] Ht. rewrite (IH _ eq_refl Ht). cbn. by rewrite app_assoc.
Qed.

Lemma encodable_app s t : encodable (s ++ t) <-> encodable s /\ encodable t.
Proof. apply Forall_app. Qed.

End Utf8Facts.

(** ** The digest: sixteen octets, thirty-two hexadecimal digits *)

Module MD5Facts.

(** The test suite of RFC 1321, section A.5. *)
Example md5_empty :
  md5_hexdigest [] = lit "d41d8cd98f00b204e9800998ecf8427e".
Proof. vm_compute. reflexivity. Qed.

Example md5_a :
  md5_hexdigest (lit "a") = lit "0cc175b9c0f1b6a831c399e269772661".
Proof. vm_compute. reflexivity. Qed.

Example md5_abc :
  md5_hexdigest (lit "abc") = lit "900150983cd24fb0d6963f7d28e17f72".
Proof. vm_compute. reflexivity. Qed.

Example md5_message_digest :
  md5_hexdigest (lit "message digest")
  = lit "f96b697d7cb7938d525a2f31aaf161d0".
Proof. vm_compute. reflexivity. Qed.

Lemma le_bytes_length n x : length (MD5.le_bytes n x) = n.
Proof. unfold MD5.le_bytes. by rewrite length_map, length_seq. Qed.

Lemma le_bytes_range n x :
  Forall (fun b => (0 <= b < 256)%Z) (MD5.le_bytes n x).
Proof.
  unfold MD5.le_bytes. apply Forall_map, Forall_forall. intros i _. cbn.
  apply Z.mod_pos_bound. lia.
Qed.

Lemma digest_length msg : length (MD5.digest msg) = 16%nat.
Proof. unfold MD5.digest. by rewrite !length_app, !le_bytes_length. Qed.

Lemma digest_range msg : Forall (fun b => (0 <= b < 256)%Z) (MD5.digest msg).
Proof. unfold MD5.digest. rewrite !Forall_app. auto using le_bytes_range. Qed.

Lemma hex_digit_lower n : n < 16 -> is_hex_lower (hex_digit n) = true.
Proof.
  intros Hn. unfold is_hex_lower, hex_digit.
  destruct (n <? 10) eqn:E; nbool; ntrue; done.
Qed.

Lemma hex_byte_lower b :
  b < 256 -> Forall (fun c => is_hex_lower c = true) (hex_byte b).
Proof.
  intros Hb. unfold hex_byte.
  repeat constructor; apply hex_digit_lower; lia.
Qed.

Lemma md5_hexdigest_length data : length (md5_hexdigest data) = 32%nat.
Proof.
  unfold md5_hexdigest.
  pose proof (digest_length (map Z.of_N data)) as Hl.
  assert (forall l : list Z, length (flat_map (fun b => hex_byte (Z.to_N b)) l)
                   = (2 * length l)%nat) as ->.
  { clear. intros l. induction l as [|b l IH]; cbn; [done | rewrite IH; lia]. }
  lia.
Qed.

Lemma md5_hexdigest_hex data :
  Forall (fun c => is_hex_lower c = true) (md5_hexdigest data).
Proof.
  unfold md5_hexdigest.
  pose proof (digest_range (map Z.of_N data)) as Hr.
  induction Hr as [|b l Hb _ IH]; cbn [flat_map]; [constructor|].
  apply Forall_app. split; [|done]. apply hex_byte_lower. lia.
Qed.

End MD5Facts.

(** ** JSON: the decoder reads back what the encoder writes *)

Module JsonFacts.
Import Json.

Lemma hex_val_digit n : n < 16 -> hex_val (hex_digit n) = Some n.
Proof.
  intros Hn. unfold hex_val, hex_digit.
  destruct (n <? 10) eqn:E; nbool; ntrue; cbn; f_equal; lia.
Qed.

Lemma hex4_val_hex4 c :
  c < 65536 ->
  match hex4 c with
  | [h1; h2; h3; h4] => hex4_val h1 h2 h3 h4 = Some c
  | _ => False
  end.
Proof.
  intros Hc. unfold hex4, hex4_val.
  rewrite !hex_val_digit by lia. f_equal. lia.
Qed.

(** A [\uXXXX] escape of a code point that is not a high surrogate. *)
Lemma scanstring_u u h1 h2 h3 h4 s3 :
  hex4_val h1 h2 h3 h4 = Some u ->
  is_high_surrogate u = false ->
  scanstring (92 :: 117 :: h1 :: h2 :: h3 :: h4 :: s3) = cons_to u (scanstring s3).
Proof.
  intros Hh Hs. cbn [scanstring]. change (92 =? 34) with false.
  change (92 =? 92) with true. change (117 =? 117) with true. cbn match.
  rewrite Hh, Hs.
  destruct s3 as [|? [|? [|? [|? [|? [|? ?]]]]]]; reflexivity.
Qed.

Lemma scanstring_letter e ch s2 :
  e <> 117 -> unescape e = Some ch ->
  scanstring (92 :: e :: s2) = cons_to ch (scanstring s2).
Proof.
  intros He Hu. cbn [scanstring]. change (92 =? 34) with false.
  change (92 =? 92) with true. cbn match.
  destruct (e =? 117) eqn:E; nbool; [done|]. by rewrite Hu.
Qed.

Lemma scanstring_plain c s1 :
  c <> 34 -> c <> 92 -> 32 <= c ->
  scanstring (c :: s1) = cons_to c (scanstring s1).
Proof.
  intros. cbn [scanstring]. by ntrue.
Qed.

Lemma scanstring_escape_char c s1 :
  scanstring (escape_char c ++ s1) = cons_to c (scanstring s1).
Proof.
  unfold escape_char.
  repeat case_match; nbool; subst; cbn [app].
  1-7: by apply scanstring_letter.
  - pose proof (hex4_val_hex4 c ltac:(lia)) as Hh. unfold hex4 in *.
    apply scanstring_u; [done|]. unfold is_high_surrogate. by ntrue.
  - by apply scanstring_plain.
Qed.

(** Reading back an encoded string body up to its closing quote. *)
Lemma scanstring_escape s rest :
  scanstring (flat_map escape_char s ++ 34 :: rest) = Ok (s, rest).
Proof.
  induction s as [|c s IH]; cbn [flat_map app]; [done|].
  rewrite <- app_assoc, scanstring_escape_char, IH. done.
Qed.

Lemma concat_tail rest :
  concat (flat_map (fun kv' => item_separator :: member_chunks kv') rest)
  = members_tail rest.
Proof.
  induction rest as [|kv rest IH]; [done|].
  cbn [flat_map members_tail]. rewrite concat_app, IH.
  f_equal. unfold member_chunks, member_body, encode_basestring.
  cbn [concat]. rewrite app_nil_r, <- !app_assoc. done.
Qed.

Lemma concat_iterencode_cons kv rest :
  concat (iterencode (kv :: rest)) =
  [123] ++ newline_indent ++ [34] ++ member_body kv ++ members_tail rest
        ++ [10; 125].
Proof.
  unfold iterencode. rewrite !concat_app, concat_tail.
  unfold member_chunks, member_body, encode_basestring.
  cbn [concat]. rewrite !app_nil_r, <- !app_assoc. done.
Qed.

Lemma scan_once_string fuel s1 :
  scan_once (S fuel) (34 :: s1) =
  let* (str, rest) := scanstring s1 in Ok (Str str, rest).
Proof. reflexivity. Qed.

Lemma members_step fuel s acc :
  members (S fuel) s acc =
  let* (key, r) := scanstring s in
  match skip_ws r with
  | colon :: r2 =>
      if colon =? 58 then
        let* (v, r4) := scan_once fuel (skip_ws r2) in
        match skip_ws r4 with
        | d :: r6 =>
            if d =? 125 then Ok (Obj (acc ++ [(key, v)]), r6)
            else if d =? 44 then
              match skip_ws r6 with
              | q :: r7 =>
                  if q =? 34 then members fuel r7 (acc ++ [(key, v)])
                  else Raise JSONDecodeError
              | [] => Raise JSONDecodeError
              end
            else Raise JSONDecodeError
        | [] => Raise JSONDecodeError
        end
      else Raise JSONDecodeError
  | [] => Raise JSONDecodeError
  end.
Proof. reflexivity. Qed.

Lemma members_encoded rest : forall kv acc fuel tl,
  (length rest + 2 <= fuel)%nat ->
  members fuel (member_body kv ++ members_tail rest ++ 10 :: 125 :: tl) acc
  = Ok (Obj (acc ++ map to_member (kv :: rest)), tl).
Proof.
  induction rest as [|kv' rest IH]; intros [k v] acc fuel tl Hf;
    (destruct fuel as [|[|fuel]]; [cbn in Hf; lia .. |]);
    rewrite members_step; unfold member_body, encode_basestring, key_separator;
    cbn [fst snd]; rewrite <- !app_assoc; cbn [app];
    rewrite scanstring_escape; cbn [rbind skip_ws is_ws N.eqb Pos.eqb orb];
    rewrite scan_once_string, scanstring_escape; cbn [rbind].
  - reflexivity.
  - cbn [members_tail flat_map]. unfold item_separator at 1.
    rewrite <- !app_assoc.
    cbn [app skip_ws is_ws N.eqb Pos.eqb orb].
    change (flat_map _ rest) with (members_tail rest).
    rewrite IH by (cbn in Hf; lia).
    by rewrite <- app_assoc.
Qed.

Lemma length_members_tail rest : (length rest <= length (members_tail rest))%nat.
Proof.
  induction rest as [|kv rest IH]; cbn [members_tail flat_map length]; [lia|].
  rewrite length_app. unfold item_separator. cbn [length app].
  change (flat_map _ rest) with (members_tail rest). lia.
Qed.

(** [json.loads] reads back what [json.dump] writes for a dictionary of
    strings. *)
Lemma loads_iterencode items :
  loads (concat (iterencode items)) = Ok (Obj (map to_member items)).
Proof.
  destruct items as [|kv rest]; [reflexivity|].
  rewrite concat_iterencode_cons. unfold loads, newline_indent.
  cbn [app py_startswith N.eqb Pos.eqb andb skip_ws is_ws orb length].
  set (fuel := length _).
  assert (length rest + 2 <= fuel)%nat as Hf.
  { subst fuel. rewrite !length_app. pose proof (length_members_tail rest).
    cbn [length]. lia. }
  change (10 :: 32 :: 32 :: 34 :: ?x) with ([10; 32; 32] ++ 34 :: x).
  cbn [scan_once N.eqb Pos.eqb].
  cbn [app skip_ws is_ws N.eqb Pos.eqb orb].
  rewrite (members_encoded rest kv [] _ []) by lia. reflexivity.
Qed.

Lemma as_path_map_members items :
  as_path_map (Obj (map to_member items)) = Some (foldl dict_insert ∅ items).
Proof.
  unfold as_path_map. generalize (∅ : gmap pystr pystr).
  induction items as [|kv items IH]; intros m; [done|].
  cbn [map foldl to_member snd fst]. apply IH.
Qed.

Lemma foldl_dict_insert items : forall m,
  foldl dict_insert m items = list_to_map (reverse items) ∪ m.
Proof.
  induction items as [|[k v] items IH]; intros m.
  - cbn. by rewrite (left_id_L ∅ (∪)).
  - cbn [foldl]. rewrite IH, reverse_cons, list_to_map_app.
    unfold dict_insert. cbn [fst snd list_to_map foldr uncurry].
    rewrite <- (assoc_L (∪)). f_equal.
    by rewrite <- insert_union_l, (left_id_L ∅ (∪)).
Qed.

Lemma foldl_dict_insert_map_to_list (m : gmap pystr pystr) :
  foldl dict_insert ∅ (map_to_list m) = m.
Proof.
  rewrite foldl_dict_insert, (right_id_L ∅ (∪)).
  rewrite <- (list_to_map_to_list m) at 2.
  apply list_to_map_proper; [|apply reverse_Permutation].
  rewrite fmap_reverse, reverse_Permutation. apply NoDup_fst_map_to_list.
Qed.

Lemma as_path_map_map_to_list (m : gmap pystr pystr) :
  as_path_map (Obj (map to_member (map_to_list m))) = Some m.
Proof. by rewrite as_path_map_members, foldl_dict_insert_map_to_list. Qed.

(** No carriage return survives in the encoded text. *)
Lemma hex_digit_ge n : 48 <= hex_digit n.
Proof. unfold hex_digit. case_match; lia. Qed.

Lemma escape_char_no_cr c : Forall (fun d => d <> 13) (escape_char c).
Proof.
  unfold escape_char, hex4.
  repeat case_match; nbool; repeat constructor; try lia.
  all: match goal with |- hex_digit ?n <> _ => pose proof (hex_digit_ge n); lia end.
Qed.

Lemma encode_basestring_no_cr s :
  Forall (fun d => d <> 13) (encode_basestring s).
Proof.
  unfold encode_basestring. rewrite !Forall_app. split_and!.
  - repeat constructor; lia.
  - induction s as [|c s IH]; cbn [flat_map]; [constructor|].
    apply Forall_app. auto using escape_char_no_cr.
  - repeat constructor; lia.
Qed.

Lemma iterencode_no_cr items :
  Forall (Forall (fun d => d <> 13)) (iterencode items).
Proof.
  assert (forall kv, Forall (Forall (fun d => d <> 13)) (member_chunks kv)) as Hm.
  { intros kv. unfold member_chunks, key_separator.
    repeat first [ apply encode_basestring_no_cr | constructor | lia ]. }
  destruct items as [|kv rest]; cbn [iterencode].
  - repeat constructor; lia.
  - rewrite !Forall_app. split_and!; try done.
    + repeat constructor; lia.
    + induction rest as [|kv' rest IH]; cbn [flat_map]; [constructor|].
      rewrite Forall_app. split; [|done].
      constructor; [repeat constructor; lia | apply Hm].
    + repeat constructor; lia.
Qed.

End JsonFacts.

Lemma universal_newlines_id s :
  Forall (fun d => d <> 13) s -> universal_newlines s = s.
Proof.
  induction 1 as [|c s Hc _ IH]; cbn [universal_newlines]; [done|].
  destruct (c =? 13) eqn:E; nbool; [done|]. by rewrite IH.
Qed.

(** Chunks the codec accepts are all written, in order. *)
Lemma write_chunks_ok chunks : forall written,
  Forall Utf8.encodable chunks ->
  exists bs, Utf8.encode (concat chunks) = Ok bs
             /\ write_chunks chunks written = (written ++ bs, None).
Proof.
  induction chunks as [|ch chunks IH]; intros written Hall.
  - exists []. by rewrite app_nil_r.
  - inversion_clear Hall as [|? ? Hch Hrest].
    destruct (Utf8Facts.encode_ok ch Hch) as [b1 Hb1].
    destruct (IH (written ++ b1) Hrest) as (b2 & Hb2 & Hw).
    exists (b1 ++ b2). cbn [concat write_chunks]. rewrite Hb1, Hw.
    split; [by apply Utf8Facts.encode_app | by rewrite app_assoc].
Qed.

(** ** The cache file: a save followed by a load *)

Module StoreFacts.
Import Json JsonFacts.

Lemma ascii_encodable (l : pystr) :
  Forall (fun c => c < 128) l -> Utf8.encodable l.
Proof.
  intros H. eapply Forall_impl; [exact H|]. intros c Hc. cbn beta in *. split; [lia|].
  unfold Utf8.is_surrogate. by ntrue.
Qed.

Lemma hex_digit_ascii n : n < 16 -> hex_digit n < 128.
Proof. unfold hex_digit. case_match; lia. Qed.

Lemma escape_char_encodable c :
  c < 0x110000 /\ Utf8.is_surrogate c = false ->
  Utf8.encodable (escape_char c).
Proof.
  intros Hc. unfold escape_char, hex4.
  repeat case_match; nbool;
    try (apply ascii_encodable; repeat constructor; lia).
  - apply ascii_encodable.
    repeat constructor; try lia; apply hex_digit_ascii; lia.
  - by constructor.
Qed.

Lemma encode_basestring_encodable s :
  Utf8.encodable s -> Utf8.encodable (encode_basestring s).
Proof.
  intros Hs. unfold encode_basestring.
  rewrite !Utf8Facts.encodable_app. split_and!.
  - apply ascii_encodable. repeat constructor; lia.
  - induction Hs as [|c s Hc _ IH]; cbn [flat_map]; [constructor|].
    apply Utf8Facts.encodable_app. auto using escape_char_encodable.
  - apply ascii_encodable. repeat constructor; lia.
Qed.

Lemma iterencode_encodable items :
  Forall (fun kv => Utf8.encodable kv.1 /\ Utf8.encodable kv.2) items ->
  Forall Utf8.encodable (iterencode items).
Proof.
  intros Hall.
  assert (forall kv, Utf8.encodable kv.1 /\ Utf8.encodable kv.2 ->
                     Forall Utf8.encodable (member_chunks kv)) as Hm.
  { intros kv [H1 H2]. unfold member_chunks, key_separator.
    repeat first [ by apply encode_basestring_encodable
                 | by (apply ascii_encodable; repeat constructor; lia)
                 | constructor ]. }
  destruct Hall as [|kv rest Hkv Hrest]; cbn [iterencode].
  - constructor; [|constructor]. apply ascii_encodable. repeat constructor; lia.
  - rewrite !Forall_app. split_and!; auto.
    + repeat constructor; apply ascii_encodable; repeat constructor; lia.
    + induction Hrest as [|kv' rest Hkv' _ IH]; cbn [flat_map]; [constructor|].
      rewrite Forall_app. split; [|done].
      constructor; [|by apply Hm].
      apply ascii_encodable. repeat constructor; lia.
    + repeat constructor; apply ascii_encodable; repeat constructor; lia.
Qed.

Lemma store_encodable_items m :
  store_encodable m ->
  Forall (fun kv => Utf8.encodable kv.1 /\ Utf8.encodable kv.2) (map_to_list m).
Proof.
  intros Hm. apply Forall_forall. intros [k v] Hin.
  apply elem_of_map_to_list in Hin. by apply (Hm k v).
Qed.

(** A save that is allowed to write and has only encodable strings
    writes the whole document and prints nothing. *)
Lemma save_cache_ok self w :
  cache_file self ∉ write_protected w ->
  store_encodable (cache self) ->
  exists bs,
    Utf8.encode (concat (iterencode (map_to_list (cache self)))) = Ok bs
    /\ _save_cache self w = (write_file w (cache_file self) bs, []).
Proof.
  intros Hw Henc. unfold _save_cache.
  rewrite bool_decide_eq_false_2 by done.
  destruct (write_chunks_ok (iterencode (map_to_list (cache self))) [])
    as (bs & Hbs & Hwc).
  { by apply iterencode_encodable, store_encodable_items. }
  exists bs. by rewrite Hwc.
Qed.

(** Loading the file that holds an encoded dictionary. *)
Lemma load_written cf w bs items :
  cf ∉ read_protected w ->
  Utf8.encode (concat (iterencode items)) = Ok bs ->
  _load_cache cf (write_file w cf bs) = Ok (Obj (map to_member items)).
Proof.
  intros Hr Hbs. unfold _load_cache, path_exists, json_load, read_text.
  cbn [files write_file set_files read_protected].
  rewrite lookup_insert_eq.
  rewrite bool_decide_eq_true_2 by eauto.
  rewrite bool_decide_eq_false_2 by done.
  rewrite (Utf8Facts.decode_encode _ _ Hbs). cbn [rbind].
  rewrite universal_newlines_id.
  - by rewrite loads_iterencode.
  - apply Forall_concat, iterencode_no_cr.
Qed.

Lemma save_then_load self w :
  cache_file self ∉ write_protected w ->
  cache_file self ∉ read_protected w ->
  store_encodable (cache self) ->
  (_save_cache self w).2 = []
  /\ disk_mapping (cache_file self) (_save_cache self w).1 = Some (cache self).
Proof.
  intros Hw Hr Henc.
  destruct (save_cache_ok self w Hw Henc) as (bs & Hbs & ->).
  split; [done|]. cbn [fst]. unfold disk_mapping.
  rewrite (load_written _ _ _ _ Hr Hbs). apply as_path_map_map_to_list.
Qed.

End StoreFacts.

(** ** Prefixes, suffixes and the last component of a path *)

Module PathFacts.

Lemma py_startswith_app p x : py_startswith (p ++ x) p = true.
Proof. induction p as [|c p IH]; cbn; [done|]. by rewrite N.eqb_refl. Qed.

Lemma py_startswith_weaken s t p :
  py_startswith s p = true -> py_startswith (s ++ t) p = true.
Proof.
  revert s. induction p as [|c p IH]; intros [|d s]; cbn; try done.
  intros H. nbool. subst. rewrite N.eqb_refl. cbn. auto.
Qed.

Lemma py_endswith_app s p : py_endswith (s ++ p) p = true.
Proof. unfold py_endswith. rewrite rev_app_distr. apply py_startswith_app. Qed.

Lemma py_endswith_weaken a s p :
  py_endswith s p = true -> py_endswith (a ++ s) p = true.
Proof.
  unfold py_endswith. rewrite rev_app_distr. apply py_startswith_weaken.
Qed.

Lemma py_startswith_inv s p :
  py_startswith s p = true -> exists t, s = p ++ t.
Proof.
  revert s. induction p as [|c p IH]; intros s; [by exists s|].
  destruct s as [|d s]; cbn; [done|]. intros H. nbool. subst.
  destruct (IH s) as [t ->]; [done|]. by exists t.
Qed.

Lemma py_endswith_inv s p :
  py_endswith s p = true -> exists a, s = a ++ p.
Proof.
  unfold py_endswith. intros H. apply py_startswith_inv in H as [t Ht].
  exists (rev t). rewrite <- (rev_involutive s), Ht, rev_app_distr.
  by rewrite rev_involutive.
Qed.

Lemma join_endswith a f p :
  py_endswith f p = true -> py_endswith (posixpath.join a f) p = true.
Proof.
  intros H. unfold posixpath.join. repeat case_match; try done.
  - by apply py_endswith_weaken.
  - rewrite app_assoc. by apply py_endswith_weaken.
Qed.

Lemma basename_from_noslash cur s :
  Forall (fun c => c <> 47) s ->
  posixpath.basename_from cur s = rev cur ++ s.
Proof.
  intros H. revert cur. induction H as [|c s Hc _ IH]; intros cur; cbn.
  - by rewrite app_nil_r.
  - destruct (c =? 47) eqn:E; nbool; [done|]. rewrite IH. cbn.
    by rewrite <- app_assoc.
Qed.

Lemma basename_from_app a s : forall cur,
  exists cur', posixpath.basename_from cur (a ++ s) = posixpath.basename_from cur' s.
Proof.
  induction a as [|c a IH]; intros cur; cbn; [by exists cur|].
  destruct (c =? 47); apply IH.
Qed.

Lemma basename_endswith s p :
  Forall (fun c => c <> 47) p ->
  py_endswith s p = true -> py_endswith (posixpath.basename s) p = true.
Proof.
  intros Hp H. apply py_endswith_inv in H as [a ->].
  unfold posixpath.basename.
  destruct (basename_from_app a p []) as [cur' ->].
  rewrite basename_from_noslash by done. apply py_endswith_app.
Qed.

End PathFacts.

(** ** Filtering, stripping, splitting and joining *)

Module StrFacts.

Lemma re_sub_class_filter cls keep s :
  (forall c, c ∈ s -> cls c = negb (keep c)) ->
  re_sub_class cls [] s = List.filter keep s.
Proof.
  induction s as [|c s IH]; intros H; [done|].
  cbn [re_sub_class flat_map List.filter].
  rewrite (H c) by (by left).
  change (flat_map _ s) with (re_sub_class cls [] s).
  rewrite IH by (intros; apply H; by right).
  by destruct (keep c).
Qed.

Lemma filter_ext_in (f g : N -> bool) s :
  (forall c, c ∈ s -> f c = g c) -> List.filter f s = List.filter g s.
Proof.
  induction s as [|c s IH]; intros H; [done|]. cbn [List.filter].
  rewrite (H c) by (by left). rewrite IH by (intros; apply H; by right). done.
Qed.

Lemma Forall_list_filter (P : N -> Prop) f s :
  Forall P s -> Forall P (List.filter f s).
Proof.
  induction 1 as [|c s Hc _ IH]; cbn [List.filter]; [constructor|].
  destruct (f c); [by constructor | done].
Qed.

Lemma Forall_re_sub_run (P : N -> Prop) cls repl s : forall in_run,
  Forall P repl -> Forall P s -> Forall P (re_sub_run_from cls repl in_run s).
Proof.
  intros in_run Hrepl Hs. revert in_run.
  induction Hs as [|c s Hc _ IH]; intros in_run; cbn [re_sub_run_from];
    [constructor|].
  destruct (cls c); [|by constructor].
  apply Forall_app. split; [by destruct in_run | done].
Qed.

Lemma Forall_lstrip (P : N -> Prop) f s :
  Forall P s -> Forall P (py_lstrip_by f s).
Proof.
  induction 1 as [|c s Hc Hs IH]; cbn [py_lstrip_by]; [constructor|].
  destruct (f c); [done | by constructor].
Qed.

Lemma Forall_rstrip (P : N -> Prop) f s :
  Forall P s -> Forall P (py_rstrip_by f s).
Proof.
  intros H. unfold py_rstrip_by.
  apply Forall_rev, Forall_lstrip, Forall_rev, H.
Qed.

Lemma Forall_strip (P : N -> Prop) s : Forall P s -> Forall P (py_strip s).
Proof. intros H. by apply Forall_rstrip, Forall_lstrip. Qed.

(** The words [str.split()] returns are non-empty and made of characters of
    the string. *)
Lemma py_split_from_words (P : N -> Prop) s : forall cur,
  Forall P cur -> Forall P s ->
  Forall (fun w => w <> [] /\ Forall P w) (py_split_from cur s).
Proof.
  induction s as [|c s IH]; intros cur Hcur Hs; cbn [py_split_from].
  - destruct cur as [|d cur]; [constructor|].
    constructor; [|constructor]. split; [|by apply Forall_rev].
    intros Hrev. apply (f_equal length) in Hrev.
    rewrite length_rev in Hrev. done.
  - inversion_clear Hs as [|? ? Hc Hs'].
    destruct (py_isspace c).
    + destruct cur as [|d cur]; [by apply IH|].
      constructor; [|by apply IH]. split; [|by apply Forall_rev].
      intros Hrev. apply (f_equal length) in Hrev.
      rewrite length_rev in Hrev. done.
    + apply IH; [by constructor | done].
Qed.

Lemma py_rstrip_by_snoc f s c :
  f c = false -> py_rstrip_by f (s ++ [c]) = s ++ [c].
Proof.
  intros Hc. unfold py_rstrip_by. rewrite rev_app_distr. cbn [rev app py_lstrip_by].
  rewrite Hc. cbn [rev]. by rewrite rev_involutive.
Qed.

(** Joined words end with the last character of the last word. *)
Lemma py_join_last (P : N -> Prop) sep ws :
  ws <> [] -> Forall (fun w => w <> [] /\ Forall P w) ws ->
  exists s c, py_join sep ws = s ++ [c] /\ P c.
Proof.
  intros Hne Hall. induction Hall as [|w ws [Hw HP] Hrest IH]; [done|].
  destruct ws as [|w' ws].
  - destruct (exists_last Hw) as (s & c & ->). exists s, c. split; [done|].
    apply Forall_app in HP as [_ HP]. by inversion HP.
  - destruct IH as (s & c & Hj & Hc); [done|].
    exists (w ++ sep ++ s), c. split; [|done].
    cbn [py_join] in *. rewrite Hj. by rewrite <- !app_assoc.
Qed.

Lemma py_rstrip_chars_join ws :
  Forall (fun w => w <> [] /\ Forall (fun c => c <> 95) w) ws ->
  py_rstrip_chars (lit "_") (py_join (lit "_") ws) = py_join (lit "_") ws.
Proof.
  intros Hall. destruct ws as [|w ws]; [done|].
  destruct (py_join_last (fun c => c <> 95) (lit "_") (w :: ws)) as (s & c & -> & Hc);
    [done | done |].
  apply py_rstrip_by_snoc. apply bool_decide_eq_false_2.
  intros Hin. apply list_elem_of_singleton in Hin. done.
Qed.

End StrFacts.

(** ** The session methods *)

Lemma load_cache_ok (cache_file : pystr) (w : World) :
  exists v, _load_cache cache_file w = Ok v.
Proof.
  unfold _load_cache. destruct (path_exists w cache_file); [|eauto].
  destruct (json_load w cache_file); eauto.
Qed.

Lemma load_cache_missing (cache_file : pystr) (w : World) :
  path_exists w cache_file = false ->
  _load_cache cache_file w = Ok (Json.Obj [])
  /\ disk_mapping cache_file w = Some ∅.
Proof. unfold disk_mapping, _load_cache. by intros ->. Qed.


Lemma save_cache_keeps_file (self : FrenchTTS) (w : World) (p : pystr) :
  path_exists w p = true -> path_exists (_save_cache self w).1 p = true.
Proof.
  unfold _save_cache, path_exists. intros H%bool_decide_eq_true.
  apply bool_decide_eq_true_2.
  destruct (bool_decide (cache_file self ∈ write_protected w)); [done|].
  destruct (write_chunks _ _) as [written err].
  cbn [fst files write_file set_files].
  destruct (decide (cache_file self = p)) as [->|Hne].
  - rewrite lookup_insert_eq. eauto.
  - by rewrite lookup_insert_ne.
Qed.

Lemma FRENCH_VOICES_denise :
  FRENCH_VOICES !! lit "denise" = Some (lit "fr-FR-DeniseNeural").
Proof. vm_compute. reflexivity. Qed.

Section SessionFacts.

Variable uni_alnum : N -> bool.
Variable synthesize : SynthRequest -> World -> synth_outcome.
Variable playback : pystr -> World -> bool.

Local Abbreviation speak_generate :=
  (speak_generate uni_alnum synthesize playback).
Local Abbreviation output_path := (output_path uni_alnum).
Local Abbreviation output_filename := (output_filename uni_alnum).
Local Abbreviation _play_audio := (_play_audio playback).


Lemma output_filename_mp3 text filename w :
  ends_with_mp3 (output_filename text filename w) = true.
Proof.
  unfold output_filename, ends_with_mp3.
  case_match; [done|]. apply PathFacts.py_endswith_app.
Qed.

Lemma output_path_mp3 self text filename w :
  ends_with_mp3 (output_path self text filename w) = true.
Proof. apply PathFacts.join_endswith, output_filename_mp3. Qed.

(** What [speak_generate] gives when the speech service succeeds. *)
Lemma speak_generate_ok self K text filename play verbose w audio :
  synthesize (synth_request self text (output_path self text filename w)) w
    = SynthOk audio ->
  let out := output_path self text filename w in
  let r := speak_generate self K text filename play verbose w in
  let w1 := write_file w out audio in
  ret r = Ok out
  /\ self_after r = (if use_cache self
                     then set_cache self (<[K := out]> (cache self)) else self)
  /\ world_after r =
       (if use_cache self
        then (_save_cache (set_cache self (<[K := out]> (cache self))) w1).1
        else w1)
  /\ EvSynth (synth_request self text out) ∈ trace r.
Proof.
  intros Hs. cbn zeta. unfold speak_generate. rewrite Hs.
  destruct (use_cache self).
  - destruct (_save_cache _ _) as [w2 ev2]. cbn. split_and!; try done.
    rewrite !elem_of_app. left. right. by apply elem_of_cons; left.
  - cbn. split_and!; try done.
    rewrite !elem_of_app. left. right. by apply elem_of_cons; left.
Qed.

(** A successful [speak_generate] comes from a successful synthesis. *)
Lemma speak_generate_ret_ok self K text filename play verbose w p :
  ret (speak_generate self K text filename play verbose w) = Ok p ->
  exists audio,
    synthesize (synth_request self text (output_path self text filename w)) w
      = SynthOk audio.
Proof.
  unfold speak_generate.
  destruct (synthesize _ _) as [| |audio]; [done | done | eauto].
Qed.

Local Abbreviation _sanitize_filename := (_sanitize_filename uni_alnum).
Local Abbreviation sanitize_spec := (sanitize_spec uni_alnum).
Local Abbreviation sanitize_amended := (sanitize_amended uni_alnum).
Local Abbreviation re_illegal := (re_illegal uni_alnum).
Local Abbreviation spec_keep := (spec_keep uni_alnum).
Local Abbreviation amended_keep := (amended_keep uni_alnum).

Lemma re_illegal_amended_keep c : re_illegal c = negb (amended_keep c).
Proof.
  unfold re_illegal, amended_keep, spec_keep, re_word.
  f_equal.
  destruct (uni_alnum c), (c =? 95), (py_isspace c), (c =? 45), (c =? 39); done.
Qed.

(** The code follows the amended rule on every text. *)
Lemma sanitize_is_amended text :
  _sanitize_filename text 30 = sanitize_amended text.
Proof.
  unfold _sanitize_filename, sanitize_amended.
  rewrite (StrFacts.re_sub_class_filter re_illegal amended_keep); [done|].
  intros c _. apply re_illegal_amended_keep.
Qed.

(** Without underscores in the text, the joined words never end with one,
    and the rule of the specification gives the same name. *)
Lemma sanitize_is_spec text :
  95 ∉ text -> _sanitize_filename text 30 = sanitize_spec text.
Proof.
  intros Hno. rewrite sanitize_is_amended.
  unfold sanitize_amended, sanitize_spec.
  assert (List.filter amended_keep text = List.filter spec_keep text) as ->.
  { apply StrFacts.filter_ext_in. intros c Hc. unfold amended_keep.
    destruct (c =? 95) eqn:E; nbool; [by subst | by rewrite orb_false_r]. }
  set (words := take 4 _).
  assert (Forall (fun w => w <> [] /\ Forall (fun c => c <> 95) w) words) as Hw.
  { subst words. apply Forall_take, StrFacts.py_split_from_words; [constructor|].
    apply StrFacts.Forall_strip, StrFacts.Forall_re_sub_run.
    - by repeat constructor.
    - apply StrFacts.Forall_list_filter, Forall_forall.
      intros c Hc ->. done. }
  destruct (30 <? length (py_join (lit "_") words))%nat eqn:Hlen; [done|].
  apply Nat.ltb_ge in Hlen.
  rewrite take_ge by done. by rewrite StrFacts.py_rstrip_chars_join.
Qed.

End SessionFacts.

(** On Latin-1 text only the Latin-1 part of the character database
    matters. *)
Lemma sanitize_latin1 (uni_alnum : N -> bool) (text : pystr) (n : nat) :
  (forall c, c < 256 -> uni_alnum c = latin1_alnum c) ->
  Forall (fun c => c < 256) text ->
  _sanitize_filename uni_alnum text n = _sanitize_filename latin1_alnum text n.
Proof.
  intros Hdb Htext. unfold _sanitize_filename.
  assert (re_sub_class (re_illegal uni_alnum) [] text
          = re_sub_class (re_illegal latin1_alnum) [] text) as ->; [|done].
  induction Htext as [|c s Hc _ IH]; [done|].
  cbn [re_sub_class flat_map]. unfold re_illegal at 1 3, re_word.
  rewrite (Hdb c Hc). f_equal. apply IH.
Qed.

(** Decide a closed statement by evaluation. *)
Ltac by_evaluation := vm_compute; first [ reflexivity | done ].

Ltac decide_closed :=
  match goal with
  | |- ?P => apply (bool_decide_unpack P); vm_compute; reflexivity
  end.

(** * The statements of the specification *)

Section Claims.

Variable uni_alnum : N -> bool.
Variable synthesize : SynthRequest -> World -> synth_outcome.
Variable playback : pystr -> World -> bool.

Local Abbreviation speak := (speak uni_alnum synthesize playback).
Local Abbreviation speak_generate :=
  (speak_generate uni_alnum synthesize playback).
Local Abbreviation output_path := (output_path uni_alnum).




(** The suffix as an invariant of the store. *)
Lemma speak_keeps_mp3 (self : FrenchTTS) (text : pystr)
    (filename : option pystr) (play : option bool)
    (force_regenerate verbose : bool) (w : World) (p : pystr) :
  map_Forall (fun _ v => ends_with_mp3 v = true) (cache self) ->
  let r := speak self text filename play force_regenerate verbose w in
  ret r = Ok p ->
  ends_with_mp3 p = true
  /\ ends_with_mp3 (posixpath.basename p) = true
  /\ map_Forall (fun _ v => ends_with_mp3 v = true) (cache (self_after r)).
Proof.
  intros Hinv. cbn zeta.
  assert (forall q, ends_with_mp3 q = true ->
                    ends_with_mp3 (posixpath.basename q) = true) as Hbase.
  { intros q. apply PathFacts.basename_endswith.
    cbn. repeat (apply Forall_cons_2; [lia|]). apply Forall_nil_2. }
  assert (forall self1,
            map_Forall (fun _ v => ends_with_mp3 v = true) (cache self1) ->
            forall K,
              ret (speak_generate self1 K text filename
                     (default (auto_play self) play) verbose w) = Ok p ->
              ends_with_mp3 p = true
              /\ ends_with_mp3 (posixpath.basename p) = true
              /\ map_Forall (fun _ v => ends_with_mp3 v = true)
                   (cache (self_after
                      (speak_generate self1 K text filename
                         (default (auto_play self) play) verbose w)))) as Hgen.
  { intros self1 Hinv1 K Hret.
    destruct (speak_generate_ret_ok _ _ _ _ _ _ _ _ _ _ _ Hret) as [audio Hs].
    destruct (speak_generate_ok uni_alnum synthesize playback self1 K text
                filename (default (auto_play self) play) verbose w audio Hs)
      as (Hret' & Hself & _ & _).
    rewrite Hret' in Hret. injection Hret as <-. rewrite Hself.
    pose proof (output_path_mp3 uni_alnum self1 text filename w) as Hmp3.
    split_and!; [done | by apply Hbase |].
    destruct (use_cache self1); [|done].
    cbn [cache set_cache]. by apply map_Forall_insert_2. }
  unfold speak.
  destruct (_get_cache_key self text) as [K|]; [|done].
  destruct (use_cache self && negb force_regenerate).
  - destruct (cache self !! K) as [cached|] eqn:Hstore.
    + destruct (path_exists w cached).
      * cbn. intros [= <-]. pose proof (Hinv K cached Hstore) as Hc.
        cbn beta in Hc. split_and!; [done | by apply Hbase | done].
      * apply (Hgen (set_cache self (delete K (cache self)))).
        cbn [cache set_cache]. by apply map_Forall_delete.
    + by apply Hgen.
  - by apply Hgen.
Qed.

(** C10, amended.  The path [speak] asks the speech service to write ends
    with [.mp3], whatever file name the caller gives; and when every path
    of the store ends with [.mp3], every path [speak] returns ends with
    [.mp3] (and so does its last component), and every path of the store
    after the call still does. *)
Theorem speak_returns_mp3 (self : FrenchTTS) (text : pystr)
    (filename : option pystr) (play : option bool)
    (force_regenerate verbose : bool) (w : World) (p : pystr) :
  map_Forall (fun _ v => ends_with_mp3 v = true) (cache self) ->
  let r := speak self text filename play force_regenerate verbose w in
  ret r = Ok p ->
  ends_with_mp3 (output_path self text filename w) = true
  /\ ends_with_mp3 p = true
  /\ ends_with_mp3 (posixpath.basename p) = true
  /\ map_Forall (fun _ v => ends_with_mp3 v = true) (cache (self_after r)).
Proof.
  intros Hinv r Hret. split; [apply output_path_mp3|].
  by apply speak_keeps_mp3.
Qed.

End Claims.

(** C2, amended.  For a character database that agrees with Latin-1: on
    every text [_sanitize_filename] follows the rule with the underscore
    kept and the cut applied only beyond 30 characters; on every text
    without an underscore it follows the rule as the specification words
    it; and the two examples of the specification give the stated names. *)
Theorem sanitize_filename_rule (uni_alnum : N -> bool) :
  (forall c, c < 256 -> uni_alnum c = latin1_alnum c) ->
  (forall text,
     _sanitize_filename uni_alnum text 30 = sanitize_amended uni_alnum text)
  /\ (forall text, 95 ∉ text ->
        _sanitize_filename uni_alnum text 30 = sanitize_spec uni_alnum text)
  /\ _sanitize_filename uni_alnum bonjour_madame 30
     = lit "Bonjour_Madame_je_voudrais"
  /\ _sanitize_filename uni_alnum (lit "!!!") 30 = lit "audio".
Proof.
  intros Hdb. split_and!.
  - apply sanitize_is_amended.
  - apply sanitize_is_spec.
  - rewrite sanitize_latin1; [by vm_compute | done |].
    apply (bool_decide_unpack _). by vm_compute.
  - rewrite sanitize_latin1; [by vm_compute | done |].
    apply (bool_decide_unpack _). by vm_compute.
Qed.


(** C5, amended.  When the text, the voice, the rate and the volume can be
    encoded in UTF-8, the cache key exists, has exactly 16 characters, all
    of them hexadecimal digits, and is the same for every session with the
    same voice, rate and volume. *)
Theorem cache_key_shape (self : FrenchTTS) (text : pystr) :
  Utf8.encodable text -> Utf8.encodable (voice self) ->
  Utf8.encodable (rate self) -> Utf8.encodable (volume self) ->
  exists k,
    _get_cache_key self text = Ok k
    /\ length k = 16%nat
    /\ Forall (fun c => is_hex_lower c = true) k
    /\ forall other,
         voice other = voice self -> rate other = rate self ->
         volume other = volume self -> _get_cache_key other text = Ok k.
Proof.
  intros Ht Hv Hr Hvol. unfold _get_cache_key.
  destruct (Utf8Facts.encode_ok
              (text ++ lit "|" ++ voice self ++ lit "|" ++ rate self
                    ++ lit "|" ++ volume self)) as [data Hdata].
  { assert (Utf8.encodable (lit "|")) as Hbar.
    { apply StoreFacts.ascii_encodable. repeat constructor; lia. }
    rewrite !Utf8Facts.encodable_app. by split_and!. }
  rewrite Hdata. cbn [rbind].
  exists (take 16 (md5_hexdigest data)). split_and!.
  - done.
  - rewrite length_take, MD5Facts.md5_hexdigest_length. done.
  - apply Forall_take, MD5Facts.md5_hexdigest_hex.
  - intros other -> -> ->. by rewrite Hdata.
Qed.

(** C6.  [_load_cache] never raises: it always returns a value; when the
    cache file is missing, and when reading or parsing it raises, the
    value is the empty mapping. *)
Theorem load_cache_never_raises (cache_file : pystr) (w : World) :
  (exists v, _load_cache cache_file w = Ok v)
  /\ (path_exists w cache_file = false ->
      _load_cache cache_file w = Ok (Json.Obj [])
      /\ disk_mapping cache_file w = Some ∅)
  /\ (forall e, json_load w cache_file = Raise e ->
      _load_cache cache_file w = Ok (Json.Obj [])
      /\ disk_mapping cache_file w = Some ∅).
Proof.
  split_and!.
  - apply load_cache_ok.
  - apply load_cache_missing.
  - unfold disk_mapping, _load_cache. intros e ->.
    by destruct (path_exists w cache_file).
Qed.

(** C8, amended.  Round trip: when the cache file can be written and read
    and every key and path of the store can be encoded in UTF-8,
    [_save_cache] reports no failure and a load of the file it wrote finds
    the mapping that was saved. *)
Theorem save_load_round_trip (self : FrenchTTS) (w : World) :
  cache_file self ∉ write_protected w ->
  cache_file self ∉ read_protected w ->
  store_encodable (cache self) ->
  (_save_cache self w).2 = []
  /\ disk_mapping (cache_file self) (_save_cache self w).1 = Some (cache self).
Proof. apply StoreFacts.save_then_load. Qed.


(** * Further properties of the methods and the callers *)

(** ** The codec: what it refuses *)

Lemma encode_raises_unencodable (s : pystr) (e : exn) :
  Utf8.encode s = Raise e -> e = UnicodeEncodeError /\ ~ Utf8.encodable s.
Proof.
  revert e. induction s as [|c s IH]; intros e; cbn; [done|].
  destruct (Utf8.encode_cp c) as [bs|] eqn:Hc.
  - destruct (Utf8.encode s) as [rest|e'] eqn:Hs; [done|]. cbn.
    intros [= <-]. destruct (IH e' eq_refl) as [-> Hn].
    split; [done|]. intros Hall. apply Hn. by inversion Hall.
  - intros [= <-]. split; [done|]. intros Hall.
    inversion_clear Hall as [|? ? [Hlt Hsur] _].
    destruct (Utf8Facts.encode_cp_Some c Hlt Hsur) as [bs Hbs]. congruence.
Qed.

Lemma encode_ok_encodable (s : pystr) (bs : pybytes) :
  Utf8.encode s = Ok bs -> Utf8.encodable s.
Proof.
  revert bs. induction s as [|c s IH]; intros bs; cbn; [constructor|].
  destruct (Utf8.encode_cp c) as [b|] eqn:Hc; [|done].
  destruct (Utf8.encode s) as [rest|] eqn:Hs; [|done]. intros _.
  constructor; [|by eapply IH].
  unfold Utf8.encode_cp in Hc.
  repeat case_match; try done; nbool; (split; [lia|]);
    try done; unfold Utf8.is_surrogate; ntrue; done.
Qed.


(** ** Traces and files of the methods *)

Lemma synth_requests_app (l1 l2 : list event) :
  synth_requests (l1 ++ l2) = synth_requests l1 ++ synth_requests l2.
Proof. apply omap_app. Qed.

Lemma save_cache_trace_prints (self : FrenchTTS) (w : World) :
  synth_requests (_save_cache self w).2 = [].
Proof.
  unfold _save_cache.
  destruct (bool_decide (cache_file self ∈ write_protected w)); [done|].
  destruct (write_chunks _ _) as [written [e|]]; done.
Qed.

Lemma save_cache_files (self : FrenchTTS) (w : World) (p : pystr) :
  p <> cache_file self -> files (_save_cache self w).1 !! p = files w !! p.
Proof.
  intros Hp. unfold _save_cache.
  destruct (bool_decide (cache_file self ∈ write_protected w)); [done|].
  destruct (write_chunks _ _) as [written err].
  cbn [fst files write_file set_files]. by rewrite lookup_insert_ne.
Qed.

Lemma save_cache_rest (self : FrenchTTS) (w : World) :
  write_protected (_save_cache self w).1 = write_protected w
  /\ read_protected (_save_cache self w).1 = read_protected w
  /\ clock (_save_cache self w).1 = clock w.
Proof.
  unfold _save_cache.
  destruct (bool_decide (cache_file self ∈ write_protected w)); [done|].
  by destruct (write_chunks _ _).
Qed.

Lemma write_file_keeps (w : World) (q p : pystr) (bs : pybytes) :
  path_exists w p = true -> path_exists (write_file w q bs) p = true.
Proof.
  unfold path_exists, write_file. cbn [files set_files].
  intros H%bool_decide_eq_true. apply bool_decide_eq_true_2.
  destruct (decide (q = p)) as [->|Hne].
  - rewrite lookup_insert_eq. eauto.
  - by rewrite lookup_insert_ne.
Qed.

Lemma set_cache_same (self : FrenchTTS) : set_cache self (cache self) = self.
Proof. by destruct self. Qed.

Section MethodFacts.

Variable uni_alnum : N -> bool.
Variable synthesize : SynthRequest -> World -> synth_outcome.
Variable playback : pystr -> World -> bool.

Local Abbreviation speak := (speak uni_alnum synthesize playback).
Local Abbreviation speak_generate :=
  (speak_generate uni_alnum synthesize playback).
Local Abbreviation output_path := (output_path uni_alnum).
Local Abbreviation _play_audio := (_play_audio playback).

Lemma play_audio_requests p w : synth_requests (_play_audio p w) = [].
Proof. unfold _play_audio. by destruct (playback p w). Qed.

(** The generating half asks the service exactly once. *)
Lemma speak_generate_requests self K text filename play verbose w :
  synth_requests (trace (speak_generate self K text filename play verbose w))
  = [synth_request self text (output_path self text filename w)].
Proof.
  unfold speak_generate.
  destruct (synthesize _ _) as [|partial|audio].
  - cbn [trace]. by destruct verbose.
  - cbn [trace]. by destruct verbose.
  - destruct (if use_cache self then _ else _) as [w2 ev2] eqn:Hsave.
    cbn [trace]. rewrite !synth_requests_app.
    assert (synth_requests ev2 = []) as ->.
    { destruct (use_cache self).
      - pose proof (save_cache_trace_prints
                      (set_cache self
                         (<[K := output_path self text filename w]>
                            (cache self)))
                      (write_file w (output_path self text filename w) audio))
          as Hs.
        by rewrite Hsave in Hs.
      - by injection Hsave as <- <-. }
    assert (synth_requests
              (if play
               then _play_audio (output_path self text filename w) w2
               else []) = []) as ->.
    { destruct play; [apply play_audio_requests | done]. }
    by destruct verbose.
Qed.

(** The two ways through [speak] once the key is known. *)
Lemma speak_on_hit self text filename play force verbose w K :
  _get_cache_key self text = Ok K ->
  cache_hit self w K force = true ->
  exists F,
    cache self !! K = Some F /\ path_exists w F = true
    /\ use_cache self = true /\ force = false
    /\ speak self text filename play force verbose w
       = mkRun (Ok F) self w
           ((if verbose
             then [EvPrint (MsgUsingCache (posixpath.basename F))]
             else [])
            ++ (if default (auto_play self) play
                then _play_audio F w else [])).
Proof.
  intros Hkey Hhit. unfold cache_hit in Hhit.
  destruct (use_cache self) eqn:Huse; [|done].
  destruct force; [done|]. cbn [andb negb] in Hhit.
  destruct (cache self !! K) as [F|] eqn:Hstore; [|done].
  exists F. split_and!; try done.
  unfold speak. rewrite Hkey, Huse. cbn [andb negb]. by rewrite Hstore, Hhit.
Qed.

Lemma speak_off_hit self text filename play force verbose w K :
  _get_cache_key self text = Ok K ->
  cache_hit self w K force = false ->
  exists c,
    (c = cache self \/ c = delete K (cache self) /\ use_cache self = true)
    /\ speak self text filename play force verbose w
       = speak_generate (set_cache self c) K text filename
           (default (auto_play self) play) verbose w.
Proof.
  intros Hkey Hhit. unfold speak. rewrite Hkey.
  unfold cache_hit in Hhit.
  destruct (use_cache self) eqn:Huse; cbn [andb] in *;
    [destruct force; cbn [andb negb] in *|].
  - exists (cache self). split; [by left|]. by rewrite set_cache_same.
  - destruct (cache self !! K) as [F|] eqn:Hstore.
    + rewrite Hhit. exists (delete K (cache self)). by split; [right|].
    + exists (cache self). split; [by left|]. by rewrite set_cache_same.
  - exists (cache self). split; [by left|]. by rewrite set_cache_same.
Qed.

(** The session and the world after the generating half. *)
Lemma speak_generate_after self K text filename play verbose w :
  let out := output_path self text filename w in
  let r := speak_generate self K text filename play verbose w in
  (self_after r = self
   \/ self_after r = set_cache self (<[K := out]> (cache self)))
  /\ (forall p, p <> out -> p <> cache_file self ->
        files (world_after r) !! p = files w !! p)
  /\ (forall p, path_exists w p = true -> path_exists (world_after r) p = true)
  /\ write_protected (world_after r) = write_protected w
  /\ read_protected (world_after r) = read_protected w
  /\ clock (world_after r) = clock w.
Proof.
  cbn zeta. unfold speak_generate.
  destruct (synthesize _ _) as [|partial|audio].
  - cbn. split_and!; auto.
  - cbn [self_after world_after]. destruct partial as [bs|].
    + split_and!; auto.
      * intros p Hp _. cbn [files write_file set_files].
        by rewrite lookup_insert_ne.
      * intros p. apply write_file_keeps.
    + split_and!; auto.
  - destruct (use_cache self) eqn:Huse.
    + set (self2 := set_cache self _).
      set (w1 := write_file w _ audio).
      pose proof (save_cache_rest self2 w1) as (Hwp & Hrp & Hck).
      pose proof (save_cache_files self2 w1) as Hfiles.
      pose proof (save_cache_keeps_file self2 w1) as Hkeeps.
      destruct (_save_cache self2 w1) as [w2 ev2]. cbn [fst] in *.
      cbn [self_after world_after]. split_and!; auto.
      * intros p Hp Hcf. rewrite Hfiles by done.
        subst w1. cbn [files write_file set_files].
        by rewrite lookup_insert_ne.
      * intros p Hp. apply Hkeeps. subst w1. by apply write_file_keeps.
    + cbn [self_after world_after]. split_and!; auto.
      * intros p Hp _. cbn [files write_file set_files].
        by rewrite lookup_insert_ne.
      * intros p. apply write_file_keeps.
Qed.

End MethodFacts.

(** ** One call of [speak] *)

Section SpeakFacts.

Variable uni_alnum : N -> bool.
Variable synthesize : SynthRequest -> World -> synth_outcome.
Variable playback : pystr -> World -> bool.

Local Abbreviation speak := (speak uni_alnum synthesize playback).
Local Abbreviation speak_generate :=
  (speak_generate uni_alnum synthesize playback).
Local Abbreviation output_path := (output_path uni_alnum).
Local Abbreviation _play_audio := (_play_audio playback).

(** X1.  The requests of one call of [speak]: none when the key cannot be
    derived; none when the call is answered from the store (cache in use,
    no forced regeneration, the key stored, the stored file present);
    otherwise exactly one, for the text with the voice, rate and volume of
    the session and the output path of the call. *)
Theorem speak_requests (self : FrenchTTS) (text : pystr)
    (filename : option pystr) (play : option bool)
    (force_regenerate verbose : bool) (w : World) :
  synth_requests
    (trace (speak self text filename play force_regenerate verbose w))
  = match _get_cache_key self text with
    | Raise _ => []
    | Ok K =>
        if cache_hit self w K force_regenerate then []
        else [synth_request self text (output_path self text filename w)]
    end.
Proof.
  destruct (_get_cache_key self text) as [K|e] eqn:Hkey.
  - destruct (cache_hit self w K force_regenerate) eqn:Hhit.
    + destruct (speak_on_hit uni_alnum synthesize playback self text filename
                  play force_regenerate verbose w K Hkey Hhit)
        as (F & _ & _ & _ & _ & ->).
      cbn [trace]. rewrite synth_requests_app.
      assert (synth_requests
                (if default (auto_play self) play
                 then _play_audio F w else []) = []) as ->.
      { destruct (default _ _); [apply play_audio_requests | done]. }
      by destruct verbose.
    + destruct (speak_off_hit uni_alnum synthesize playback self text filename
                  play force_regenerate verbose w K Hkey Hhit)
        as (c & _ & ->).
      by rewrite speak_generate_requests.
  - unfold speak. by rewrite Hkey.
Qed.

(** X2.  [speak] touches the store at the key of its text only: the entry
    of every other key is what it was, and the other fields of the session
    are unchanged. *)
Theorem speak_store_frame (self : FrenchTTS) (text : pystr)
    (filename : option pystr) (play : option bool)
    (force_regenerate verbose : bool) (w : World) (k : pystr) :
  _get_cache_key self text <> Ok k ->
  let r := speak self text filename play force_regenerate verbose w in
  cache (self_after r) !! k = cache self !! k
  /\ set_cache (self_after r) (cache self) = self.
Proof.
  intros Hk. cbn zeta.
  destruct (_get_cache_key self text) as [K|e] eqn:Hkey.
  - assert (K <> k) as Hne by congruence.
    destruct (cache_hit self w K force_regenerate) eqn:Hhit.
    + destruct (speak_on_hit uni_alnum synthesize playback self text filename
                  play force_regenerate verbose w K Hkey Hhit)
        as (F & _ & _ & _ & _ & ->).
      cbn [self_after]. by rewrite set_cache_same.
    + destruct (speak_off_hit uni_alnum synthesize playback self text filename
                  play force_regenerate verbose w K Hkey Hhit)
        as (c & Hc & ->).
      destruct (speak_generate_after uni_alnum synthesize playback
                  (set_cache self c) K text filename
                  (default (auto_play self) play) verbose w)
        as ([-> | ->] & _); cbn [cache set_cache].
      * split; [|by destruct self].
        destruct Hc as [-> | [-> _]]; [done | by rewrite lookup_delete_ne].
      * split; [|by destruct self].
        rewrite lookup_insert_ne by done.
        destruct Hc as [-> | [-> _]]; [done | by rewrite lookup_delete_ne].
  - unfold speak. rewrite Hkey. cbn [self_after].
    by rewrite set_cache_same.
Qed.

(** X3.  [speak] writes no file but its output path and the cache file:
    every other path holds what it held, no existing file disappears, and
    the protections and the clock are unchanged. *)
Theorem speak_files_frame (self : FrenchTTS) (text : pystr)
    (filename : option pystr) (play : option bool)
    (force_regenerate verbose : bool) (w : World) :
  let r := speak self text filename play force_regenerate verbose w in
  (forall p, p <> output_path self text filename w -> p <> cache_file self ->
     files (world_after r) !! p = files w !! p)
  /\ (forall p, path_exists w p = true -> path_exists (world_after r) p = true)
  /\ write_protected (world_after r) = write_protected w
  /\ read_protected (world_after r) = read_protected w
  /\ clock (world_after r) = clock w.
Proof.
  cbn zeta.
  destruct (_get_cache_key self text) as [K|e] eqn:Hkey.
  - destruct (cache_hit self w K force_regenerate) eqn:Hhit.
    + destruct (speak_on_hit uni_alnum synthesize playback self text filename
                  play force_regenerate verbose w K Hkey Hhit)
        as (F & _ & _ & _ & _ & ->).
      cbn [world_after]. by split_and!.
    + destruct (speak_off_hit uni_alnum synthesize playback self text filename
                  play force_regenerate verbose w K Hkey Hhit)
        as (c & _ & ->).
      destruct (speak_generate_after uni_alnum synthesize playback
                  (set_cache self c) K text filename
                  (default (auto_play self) play) verbose w)
        as (_ & Hfiles & Hrest).
      split; [|exact Hrest]. exact Hfiles.
  - unfold speak. rewrite Hkey. cbn [world_after]. by split_and!.
Qed.



End SpeakFacts.

(** ** The key, a second call, a call after [clear_cache] *)

(** X6.  [_get_cache_key] raises nothing but [UnicodeEncodeError], and
    raises it exactly when the text, the voice, the rate or the volume
    holds a code point UTF-8 cannot encode. *)
Theorem cache_key_raises_iff (self : FrenchTTS) (text : pystr) :
  (forall e, _get_cache_key self text = Raise e -> e = UnicodeEncodeError)
  /\ (_get_cache_key self text = Raise UnicodeEncodeError <->
      ~ (Utf8.encodable text /\ Utf8.encodable (voice self)
         /\ Utf8.encodable (rate self) /\ Utf8.encodable (volume self))).
Proof.
  assert (Utf8.encodable (lit "|")) as Hbar.
  { apply StoreFacts.ascii_encodable. repeat constructor; lia. }
  unfold _get_cache_key.
  set (content := text ++ _).
  assert (Utf8.encodable content <->
          Utf8.encodable text /\ Utf8.encodable (voice self)
          /\ Utf8.encodable (rate self) /\ Utf8.encodable (volume self))
    as Hcontent.
  { subst content. rewrite !Utf8Facts.encodable_app. tauto. }
  rewrite <- Hcontent.
  destruct (Utf8.encode content) as [data|e'] eqn:Henc; cbn [rbind].
  - split; [done|]. split; [done|]. intros Hn. exfalso. apply Hn.
    by eapply encode_ok_encodable.
  - destruct (encode_raises_unencodable content e' Henc) as [-> Hn].
    split; [by intros e [= <-]|]. done.
Qed.

Lemma path_exists_write_file (w : World) (p : pystr) (bs : pybytes) :
  path_exists (write_file w p bs) p = true.
Proof.
  unfold path_exists, write_file. cbn [files set_files].
  rewrite lookup_insert_eq. apply bool_decide_eq_true_2. eauto.
Qed.

Section SpeakAgain.

Variable uni_alnum : N -> bool.
Variable synthesize : SynthRequest -> World -> synth_outcome.
Variable playback : pystr -> World -> bool.

Local Abbreviation speak := (speak uni_alnum synthesize playback).
Local Abbreviation speak_generate :=
  (speak_generate uni_alnum synthesize playback).
Local Abbreviation output_path := (output_path uni_alnum).
Local Abbreviation _play_audio := (_play_audio playback).

(** A call that returns a path leaves it stored under the key of the text
    when the cache is in use, and the file exists. *)
Lemma speak_ok_stored self text filename play force verbose w p :
  ret (speak self text filename play force verbose w) = Ok p ->
  exists K c,
    _get_cache_key self text = Ok K
    /\ self_after (speak self text filename play force verbose w)
       = set_cache self c
    /\ (use_cache self = true -> c !! K = Some p)
    /\ path_exists (world_after (speak self text filename play force verbose w))
         p = true.
Proof.
  intros Hret.
  destruct (_get_cache_key self text) as [K|e] eqn:Hkey;
    [|unfold speak in Hret; by rewrite Hkey in Hret].
  exists K.
  destruct (cache_hit self w K force) eqn:Hhit.
  - destruct (speak_on_hit uni_alnum synthesize playback self text filename
                play force verbose w K Hkey Hhit)
      as (F & Hstore & HF & _ & _ & Hrun).
    rewrite Hrun in Hret |- *. cbn [ret] in Hret. injection Hret as <-.
    exists (cache self). cbn [self_after world_after].
    by rewrite set_cache_same.
  - destruct (speak_off_hit uni_alnum synthesize playback self text filename
                play force verbose w K Hkey Hhit)
      as (c & _ & Hrun).
    rewrite Hrun in Hret |- *.
    destruct (speak_generate_ret_ok uni_alnum synthesize playback _ _ _ _ _ _
                _ _ Hret) as [audio Hsynth].
    destruct (speak_generate_ok uni_alnum synthesize playback
                (set_cache self c) K text filename
                (default (auto_play self) play) verbose w audio Hsynth)
      as (Hret' & Hself & Hworld & _).
    rewrite Hret' in Hret. injection Hret as <-.
    rewrite Hself, Hworld. cbn [use_cache set_cache cache].
    destruct (use_cache self) eqn:Huse.
    + eexists. split; [done|]. split; [by destruct self|]. split.
      * intros _. apply lookup_insert_eq.
      * apply save_cache_keeps_file, path_exists_write_file.
    + exists c. split; [done|]. split; [done|]. split; [done|].
      apply path_exists_write_file.
Qed.


(** X8.  After [clear_cache] a call of [speak] whose key can be derived
    always asks the service, once, and the store then holds no entry but
    possibly that of the text. *)
Theorem clear_then_speak (self : FrenchTTS) (w : World) (text : pystr)
    (filename : option pystr) (play : option bool)
    (force_regenerate verbose : bool) (K : pystr) :
  _get_cache_key self text = Ok K ->
  let c := clear_cache self w in
  let r := speak (self_after c) text filename play force_regenerate verbose
                 (world_after c) in
  synth_requests (trace r)
    = [synth_request self text (output_path self text filename w)]
  /\ forall k, k <> K -> cache (self_after r) !! k = None.
Proof.
  intros Hkey. cbn zeta.
  assert (cache_hit (self_after (clear_cache self w))
            (world_after (clear_cache self w)) K force_regenerate = false)
    as Hhit.
  { unfold cache_hit, clear_cache. cbn [self_after cache set_cache].
    rewrite lookup_empty. by rewrite andb_false_r. }
  destruct (speak_off_hit uni_alnum synthesize playback
              (self_after (clear_cache self w)) text filename play
              force_regenerate verbose (world_after (clear_cache self w)) K
              Hkey Hhit) as (c & Hc & ->).
  assert (c = ∅) as ->.
  { destruct Hc as [-> | [-> _]]; [done|].
    unfold clear_cache. cbn [self_after cache set_cache]. apply delete_empty. }
  split.
  - rewrite speak_generate_requests.
    unfold clear_cache.
    by destruct (path_exists w (cache_file self)).
  - intros k Hk.
    destruct (speak_generate_after uni_alnum synthesize playback
                (set_cache (self_after (clear_cache self w)) ∅) K text
                filename
                (default (auto_play (self_after (clear_cache self w))) play)
                verbose (world_after (clear_cache self w)))
      as ([-> | ->] & _); cbn [cache set_cache].
    + apply lookup_empty.
    + rewrite lookup_insert_ne by done. apply lookup_empty.
Qed.

End SpeakAgain.

(** ** The generated file name *)

Lemma Forall_re_sub_class (P : N -> Prop) cls s :
  Forall P s -> Forall (fun c => P c /\ cls c = false) (re_sub_class cls [] s).
Proof.
  induction 1 as [|c s Hc _ IH]; cbn [re_sub_class flat_map]; [constructor|].
  destruct (cls c) eqn:E; [done|]. by constructor.
Qed.

(** The words of [str.split()] hold no whitespace. *)
Lemma py_split_from_nospace (P : N -> Prop) s : forall cur,
  Forall (fun c => P c /\ py_isspace c = false) cur -> Forall P s ->
  Forall (fun w => w <> [] /\ Forall (fun c => P c /\ py_isspace c = false) w)
         (py_split_from cur s).
Proof.
  induction s as [|c s IH]; intros cur Hcur Hs; cbn [py_split_from].
  - destruct cur as [|d cur]; [constructor|].
    constructor; [|constructor]. split; [|by apply Forall_rev].
    intros Hrev. apply (f_equal length) in Hrev.
    rewrite length_rev in Hrev. done.
  - inversion_clear Hs as [|? ? Hc Hs'].
    destruct (py_isspace c) eqn:Hsp.
    + destruct cur as [|d cur]; [by apply IH|].
      constructor; [|by apply IH]. split; [|by apply Forall_rev].
      intros Hrev. apply (f_equal length) in Hrev.
      rewrite length_rev in Hrev. done.
    + apply IH; [by constructor | done].
Qed.

Lemma Forall_py_join (P : N -> Prop) sep ws :
  Forall P sep -> Forall (Forall P) ws -> Forall P (py_join sep ws).
Proof.
  intros Hsep. induction 1 as [|w ws Hw Hws IH]; [constructor|].
  cbn [py_join]. destruct ws as [|w' ws]; [done|].
  apply Forall_app. split; [done|]. apply Forall_app. by split.
Qed.


Lemma basename_from_slash a f : forall cur,
  posixpath.basename_from cur (a ++ 47 :: f) = posixpath.basename_from [] f.
Proof.
  induction a as [|c a IH]; intros cur; cbn; [done|].
  destruct (c =? 47); apply IH.
Qed.

(** The last component of a joined path is the second argument when it
    holds no slash. *)
Lemma basename_join a f :
  Forall (fun c => c <> 47) f ->
  posixpath.basename (posixpath.join a f) = f
  /\ py_startswith (posixpath.join a f) a = true.
Proof.
  intros Hf. unfold posixpath.join, posixpath.basename.
  destruct (py_startswith f (lit "/")) eqn:Habs.
  { destruct f as [|c f]; [done|]. cbn in Habs.
    inversion_clear Hf as [|? ? Hc _]. nbool. by subst. }
  destruct (bool_decide (a = [])) eqn:Hempty.
  { apply bool_decide_eq_true in Hempty as ->. cbn [orb app].
    split; [|done]. by rewrite PathFacts.basename_from_noslash. }
  cbn [orb]. destruct (py_endswith a (lit "/")) eqn:Hslash.
  - split; [|apply PathFacts.py_startswith_app].
    apply PathFacts.py_endswith_inv in Hslash as [a' ->].
    change (lit "/") with [47]. rewrite <- app_assoc. cbn [app].
    rewrite basename_from_slash.
    by rewrite PathFacts.basename_from_noslash.
  - split; [|apply PathFacts.py_startswith_app].
    change (lit "/") with [47]. cbn [app]. rewrite basename_from_slash.
    by rewrite PathFacts.basename_from_noslash.
Qed.

Section NameFacts.

Variable uni_alnum : N -> bool.

Local Abbreviation _sanitize_filename := (_sanitize_filename uni_alnum).
Local Abbreviation re_illegal := (re_illegal uni_alnum).
Local Abbreviation output_filename := (output_filename uni_alnum).
Local Abbreviation output_path := (output_path uni_alnum).

(** What the characters of a sanitised name are. *)
Lemma sanitize_chars (P : N -> Prop) text max_length :
  P 95 -> Forall P (lit "audio") ->
  (forall c,
     c ∈ text -> re_illegal c = false -> py_isspace c = false -> P c) ->
  Forall P (_sanitize_filename text max_length).
Proof.
  intros Hu Haudio Htext. unfold _sanitize_filename.
  set (cleaned := re_sub_class re_illegal [] text).
  set (Q := fun c => c = 32 \/ (c ∈ text /\ re_illegal c = false)).
  assert (Forall Q cleaned) as Hcleaned.
  { subst cleaned.
    eapply Forall_impl;
      [apply (Forall_re_sub_class (fun c => c ∈ text)) | by right].
    by apply Forall_forall. }
  set (words := take 4 _).
  assert (Forall (Forall P) words) as Hwords.
  { subst words. apply Forall_take.
    eapply Forall_impl;
      [apply (py_split_from_nospace Q); [constructor|] |].
    - apply StrFacts.Forall_strip, StrFacts.Forall_re_sub_run; [|done].
      by repeat constructor.
    - intros wd [_ Hwd]. eapply Forall_impl; [exact Hwd|].
      intros c [[-> | [Hin Hlegal]] Hsp]; [done|]. by apply Htext. }
  assert (Forall P (py_join (lit "_") words)) as Hjoin.
  { apply Forall_py_join; [by repeat constructor | done]. }
  assert (Forall P
            (if (max_length <? length (py_join (lit "_") words))%nat
             then py_rstrip_chars (lit "_")
                    (take max_length (py_join (lit "_") words))
             else py_join (lit "_") words)) as Hcut.
  { destruct (_ <? _)%nat; [|done].
    by apply StrFacts.Forall_rstrip, Forall_take. }
  by destruct (if (_ <? _)%nat then _ else _).
Qed.


Lemma output_filename_generated text w :
  output_filename text None w
  = clock w ++ lit "_" ++ _sanitize_filename text 30 ++ lit ".mp3".
Proof.
  unfold output_filename.
  replace (clock w ++ lit "_" ++ _sanitize_filename text 30 ++ lit ".mp3")
    with ((clock w ++ lit "_" ++ _sanitize_filename text 30) ++ lit ".mp3")
    by (by rewrite <- !app_assoc).
  by rewrite PathFacts.py_endswith_app.
Qed.

(** X10.  A generated file name stays in the output directory: when the
    slash is not alphanumeric and the reading of the clock holds none, the
    name holds no slash, it is the last component of the output path, and
    the output path starts with the output directory. *)
Theorem generated_name_in_output_dir (self : FrenchTTS) (text : pystr)
    (w : World) :
  uni_alnum 47 = false ->
  47 ∉ clock w ->
  (47 ∉ output_filename text None w)
  /\ posixpath.basename (output_path self text None w)
     = output_filename text None w
  /\ py_startswith (output_path self text None w) (output_dir self) = true.
Proof.
  intros Hdb Hclock. cbn zeta.
  assert (Forall (fun c => c <> 47) (output_filename text None w)) as Hname.
  { rewrite output_filename_generated.
    apply Forall_app. split; [by apply Forall_forall; intros c Hc -> |].
    apply Forall_app. split; [by repeat constructor|].
    apply Forall_app. split; [|by repeat constructor].
    apply sanitize_chars; [done | by repeat constructor |].
    intros c _ Hlegal _ ->. unfold re_illegal, re_word in Hlegal.
    rewrite Hdb in Hlegal. done. }
  split.
  - intros Hin. by eapply Forall_forall in Hname.
  - by apply basename_join.
Qed.

(** X11.  A file name given by the caller that starts with a slash is
    used as the output path, with the suffix added when missing: the output
    directory plays no part. *)
Theorem absolute_filename_leaves_output_dir (self : FrenchTTS)
    (text f : pystr) (w : World) :
  py_startswith f (lit "/") = true ->
  output_path self text (Some f) w
  = (if py_endswith f (lit ".mp3") then f else f ++ lit ".mp3").
Proof.
  intros Habs. unfold output_path, posixpath.join, output_filename.
  destruct (py_endswith f (lit ".mp3")); [by rewrite Habs|].
  by rewrite PathFacts.py_startswith_weaken.
Qed.

End NameFacts.

(** ** Construction and the two-run behaviour of [quick_speak] *)

Lemma disk_mapping_load (cf : pystr) (w : World) :
  exists v, _load_cache cf w = Ok v /\ disk_mapping cf w = Json.as_path_map v.
Proof.
  destruct (load_cache_ok cf w) as [v Hv]. exists v. split; [done|].
  unfold disk_mapping. by rewrite Hv.
Qed.

(** What [__init__] builds, field by field. *)
Lemma init_fields cfg v r vol uc w s :
  __init__ cfg v r vol uc w = Some (Ok s) ->
  voice s = default (lit "fr-FR-DeniseNeural")
              (FRENCH_VOICES !! py_or v (DEFAULT_VOICE cfg))
  /\ rate s = py_or r (DEFAULT_RATE cfg)
  /\ volume s = py_or vol (DEFAULT_VOLUME cfg)
  /\ output_dir s = OUTPUT_DIR cfg
  /\ auto_play s = AUTO_PLAY cfg
  /\ use_cache s = uc
  /\ cache_file s = posixpath.join (OUTPUT_DIR cfg) (lit ".cache.json")
  /\ disk_mapping (cache_file s) w = Some (cache s).
Proof.
  unfold __init__. rewrite FRENCH_VOICES_denise.
  destruct (disk_mapping_load
              (posixpath.join (OUTPUT_DIR cfg) (lit ".cache.json")) w)
    as (loaded & -> & Hdisk).
  destruct (Json.as_path_map loaded) as [m|] eqn:Hm; [|done].
  intros [= <-]. cbn. by split_and!.
Qed.

(** The session built on another world differs by its store only. *)
Lemma init_on_disk cfg v r vol uc w w' s m :
  __init__ cfg v r vol uc w = Some (Ok s) ->
  disk_mapping (posixpath.join (OUTPUT_DIR cfg) (lit ".cache.json")) w'
    = Some m ->
  __init__ cfg v r vol uc w' = Some (Ok (set_cache s m)).
Proof.
  unfold __init__. rewrite FRENCH_VOICES_denise.
  destruct (disk_mapping_load
              (posixpath.join (OUTPUT_DIR cfg) (lit ".cache.json")) w)
    as (loaded & -> & _).
  destruct (disk_mapping_load
              (posixpath.join (OUTPUT_DIR cfg) (lit ".cache.json")) w')
    as (loaded' & -> & ->).
  destruct (Json.as_path_map loaded) as [m0|]; [|done].
  intros [= <-] ->. done.
Qed.

Lemma table_voice_default (name : pystr) :
  table_voice (default (lit "fr-FR-DeniseNeural") (FRENCH_VOICES !! name)).
Proof.
  destruct (FRENCH_VOICES !! name) as [id|] eqn:Hname.
  - by exists name.
  - exists (lit "denise"). apply FRENCH_VOICES_denise.
Qed.

(** X12.  A session that [__init__] builds holds a voice of the table; a
    name of the table selects its identifier; the cache file lies in the
    output directory, and the store is the mapping found on disk. *)
Theorem init_voice_in_table (cfg : Config) (v r vol : option pystr)
    (uc : bool) (w : World) (s : FrenchTTS) :
  __init__ cfg v r vol uc w = Some (Ok s) ->
  table_voice (voice s)
  /\ (forall name voice_id,
        v = Some name -> FRENCH_VOICES !! name = Some voice_id ->
        voice s = voice_id)
  /\ cache_file s = posixpath.join (output_dir s) (lit ".cache.json")
  /\ disk_mapping (cache_file s) w = Some (cache s).
Proof.
  intros Hinit.
  destruct (init_fields _ _ _ _ _ _ _ Hinit)
    as (Hv & _ & _ & Hdir & _ & _ & Hcf & Hdisk).
  split_and!.
  - rewrite Hv. apply table_voice_default.
  - intros name voice_id -> Hname. rewrite Hv.
    destruct name as [|c name]; [by vm_compute in Hname|].
    cbn [py_or]. by rewrite Hname.
  - by rewrite Hcf, Hdir.
  - done.
Qed.

Lemma hex_lower_encodable (s : pystr) :
  Forall (fun c => is_hex_lower c = true) s -> Utf8.encodable s.
Proof.
  intros H. apply StoreFacts.ascii_encodable.
  eapply Forall_impl; [exact H|]. intros c Hc. cbn beta in Hc.
  unfold is_hex_lower in Hc. nbool. destruct Hc as [Hc|Hc]; nbool; lia.
Qed.

(** A key that exists is encodable, and so is the text it was made from. *)
Lemma get_cache_key_encodable (self : FrenchTTS) (text K : pystr) :
  _get_cache_key self text = Ok K -> Utf8.encodable K /\ Utf8.encodable text.
Proof.
  unfold _get_cache_key.
  destruct (Utf8.encode _) as [data|] eqn:Hdata; [|done].
  cbn [rbind]. intros HK.
  assert (K = take 16 (md5_hexdigest data)) as -> by congruence.
  split.
  - apply hex_lower_encodable, Forall_take, MD5Facts.md5_hexdigest_hex.
  - apply encode_ok_encodable in Hdata.
    by apply Utf8Facts.encodable_app in Hdata as [Ht _].
Qed.

Lemma join_encodable (a b : pystr) :
  Utf8.encodable a -> Utf8.encodable b -> Utf8.encodable (posixpath.join a b).
Proof.
  intros Ha Hb. unfold posixpath.join.
  assert (Utf8.encodable (lit "/")) as Hslash.
  { apply StoreFacts.ascii_encodable. repeat constructor; lia. }
  repeat case_match; rewrite ?Utf8Facts.encodable_app; by split_and?.
Qed.

Section TwoRuns.

Variable uni_alnum : N -> bool.
Variable synthesize : SynthRequest -> World -> synth_outcome.
Variable playback : pystr -> World -> bool.

Local Abbreviation speak := (speak uni_alnum synthesize playback).
Local Abbreviation speak_generate :=
  (speak_generate uni_alnum synthesize playback).
Local Abbreviation output_path := (output_path uni_alnum).
Local Abbreviation output_filename := (output_filename uni_alnum).
Local Abbreviation _sanitize_filename := (_sanitize_filename uni_alnum).
Local Abbreviation _play_audio := (_play_audio playback).
Local Abbreviation quick_speak :=
  (quick_speak uni_alnum synthesize playback).

Lemma output_path_encodable self text filename w :
  Utf8.encodable (output_dir self) ->
  (filename = None -> Utf8.encodable (clock w)) ->
  Utf8.encodable text ->
  (forall f, filename = Some f -> Utf8.encodable f) ->
  Utf8.encodable (output_path self text filename w).
Proof.
  intros Hdir Hclock Htext Hf.
  assert (Utf8.encodable (lit ".mp3")) as Hmp3.
  { apply StoreFacts.ascii_encodable. repeat constructor; lia. }
  apply join_encodable; [done|]. unfold output_filename.
  assert (Utf8.encodable
            match filename with
            | Some f => f
            | None => clock w ++ lit "_" ++ _sanitize_filename text 30
                        ++ lit ".mp3"
            end) as Hname.
  { destruct filename as [f|]; [by apply Hf|].
    rewrite !Utf8Facts.encodable_app. split_and!; try done.
    - by apply Hclock.
    - apply StoreFacts.ascii_encodable. repeat constructor; lia.
    - unfold Utf8.encodable. apply sanitize_chars.
      + split; [lia | done].
      + apply StoreFacts.ascii_encodable. repeat constructor; lia.
      + intros c Hc _ _. revert c Hc. by apply Forall_forall. }
  destruct (py_endswith _ _); [done|].
  rewrite Utf8Facts.encodable_app. by split.
Qed.

(** A call that returns a path keeps the file of the cache equal to the
    store, and the store encodable. *)
Lemma speak_keeps_sync self text filename play force verbose w p :
  use_cache self = true ->
  cache_file self ∉ write_protected w ->
  cache_file self ∉ read_protected w ->
  disk_mapping (cache_file self) w = Some (cache self) ->
  store_encodable (cache self) ->
  Utf8.encodable (output_dir self) ->
  (filename = None -> Utf8.encodable (clock w)) ->
  (forall f, filename = Some f -> Utf8.encodable f) ->
  ret (speak self text filename play force verbose w) = Ok p ->
  disk_mapping (cache_file self)
    (world_after (speak self text filename play force verbose w))
  = Some (cache (self_after (speak self text filename play force verbose w)))
  /\ store_encodable
       (cache (self_after (speak self text filename play force verbose w))).
Proof.
  intros Huse Hw Hr Hdisk Henc Hdir Hclock Hf Hret.
  destruct (_get_cache_key self text) as [K|e] eqn:Hkey;
    [|unfold speak in Hret; by rewrite Hkey in Hret].
  destruct (get_cache_key_encodable self text K Hkey) as [HK Htext].
  destruct (cache_hit self w K force) eqn:Hhit.
  - destruct (speak_on_hit uni_alnum synthesize playback self text filename
                play force verbose w K Hkey Hhit)
      as (F & _ & _ & _ & _ & ->). done.
  - destruct (speak_off_hit uni_alnum synthesize playback self text filename
                play force verbose w K Hkey Hhit)
      as (c & Hc & Hrun).
    rewrite Hrun in Hret |- *.
    destruct (speak_generate_ret_ok uni_alnum synthesize playback _ _ _ _ _ _
                _ _ Hret) as [audio Hsynth].
    destruct (speak_generate_ok uni_alnum synthesize playback
                (set_cache self c) K text filename
                (default (auto_play self) play) verbose w audio Hsynth)
      as (_ & Hself & Hworld & _).
    rewrite Hself, Hworld. cbn [use_cache set_cache]. rewrite Huse.
    set (self2 := set_cache _ _).
    assert (store_encodable (cache self2)) as Henc2.
    { subst self2. cbn [cache set_cache].
      apply map_Forall_insert_2.
      - split; [done|]. by apply (output_path_encodable self).
      - destruct Hc as [-> | [-> _]]; [done|].
        by apply map_Forall_delete. }
    split; [|done].
    by apply (StoreFacts.save_then_load self2).
Qed.

(** X13.  [quick_speak] run a second time: when the cache file can be
    written and read, the mapping on disk, the output directory and the
    reading of the clock are encodable, and the first run returned a path,
    a second run for the same text and voice, at any later reading of the
    clock, returns the same path, asks the service for nothing and leaves
    the file system as it is. *)
Theorem quick_speak_again (cfg : Config) (text voice : pystr) (w : World)
    (now : pystr) (r : Run pystr) (p : pystr) :
  let cf := posixpath.join (OUTPUT_DIR cfg) (lit ".cache.json") in
  cf ∉ write_protected w ->
  cf ∉ read_protected w ->
  (forall m, disk_mapping cf w = Some m -> store_encodable m) ->
  Utf8.encodable (OUTPUT_DIR cfg) ->
  Utf8.encodable (clock w) ->
  quick_speak cfg text voice w = Some (Ok r) ->
  ret r = Ok p ->
  exists r',
    quick_speak cfg text voice (set_clock (world_after r) now) = Some (Ok r')
    /\ ret r' = Ok p
    /\ synth_requests (trace r') = []
    /\ world_after r' = set_clock (world_after r) now.
Proof.
  intros cf Hw Hr Henc Hdir Hclock Hquick Hret. subst cf.
  unfold quick_speak in Hquick |- *.
  destruct (__init__ cfg (Some voice) None None true w) as [[tts|]|] eqn:Hinit;
    [|done|done].
  injection Hquick as <-.
  destruct (init_fields _ _ _ _ _ _ _ Hinit)
    as (_ & _ & _ & Hod & _ & Huse & Hcf & Hdisk).
  rewrite <- Hcf in Hw, Hr, Henc.
  assert (disk_mapping (cache_file tts)
            (world_after (speak tts text None None false true w))
          = Some (cache (self_after (speak tts text None None false true w))))
    as Hsync.
  { apply (speak_keeps_sync tts text None None false true w p); try done.
    - by apply Henc.
    - by rewrite Hod. }
  destruct (speak_ok_stored uni_alnum synthesize playback tts text None None
              false true w p Hret)
    as (K & c & Hkey & Hself & Hstore & Hexists).
  rewrite Hself in Hsync. cbn [cache set_cache] in Hsync.
  rewrite Hcf in Hsync.
  rewrite (init_on_disk cfg (Some voice) None None true w
             (set_clock (world_after (speak tts text None None false true w))
                now) tts c Hinit Hsync).
  eexists. split; [done|].
  assert (cache_hit (set_cache tts c)
            (set_clock (world_after (speak tts text None None false true w))
               now) K false = true) as Hhit.
  { unfold cache_hit. cbn [use_cache set_cache cache]. rewrite Huse.
    cbn [andb negb]. by rewrite (Hstore Huse). }
  destruct (speak_on_hit uni_alnum synthesize playback (set_cache tts c) text
              None None false true _ K Hkey Hhit)
    as (F & HF & _ & _ & _ & ->).
  cbn [cache set_cache] in HF. rewrite (Hstore Huse) in HF.
  injection HF as <-. cbn [ret trace world_after]. split_and!; try done.
  rewrite synth_requests_app.
  change (synth_requests [EvPrint (MsgUsingCache (posixpath.basename p))])
    with (@nil SynthRequest).
  destruct (default _ _); [apply play_audio_requests | done].
Qed.

End TwoRuns.

Section Requests.

Variable uni_alnum : N -> bool.
Variable synthesize : SynthRequest -> World -> synth_outcome.
Variable playback : pystr -> World -> bool.

Local Abbreviation speak := (speak uni_alnum synthesize playback).
Local Abbreviation output_path := (output_path uni_alnum).
Local Abbreviation quick_speak :=
  (quick_speak uni_alnum synthesize playback).

(** A request of [speak] is the only one of the call and carries the text
    and the settings of the session. *)
Lemma speak_request_inv self text filename play force verbose w req :
  req ∈ synth_requests
          (trace (speak self text filename play force verbose w)) ->
  synth_requests (trace (speak self text filename play force verbose w))
    = [req]
  /\ req = synth_request self text (output_path self text filename w).
Proof.
  destruct (_get_cache_key self text) as [K|e] eqn:Hkey.
  - destruct (cache_hit self w K force) eqn:Hhit.
    + destruct (speak_on_hit uni_alnum synthesize playback self text filename
                  play force verbose w K Hkey Hhit)
        as (F & _ & _ & _ & _ & ->).
      cbn [trace]. rewrite synth_requests_app.
      assert (synth_requests
                (if default (auto_play self) play
                 then _play_audio playback F w else []) = []) as ->.
      { destruct (default _ _); [apply play_audio_requests | done]. }
      destruct verbose; cbn; by intros ?%elem_of_nil.
    + destruct (speak_off_hit uni_alnum synthesize playback self text filename
                  play force verbose w K Hkey Hhit)
        as (c & _ & ->).
      rewrite speak_generate_requests.
      intros ->%list_elem_of_singleton. done.
  - unfold speak. rewrite Hkey. cbn. by intros ?%elem_of_nil.
Qed.

(** X14.  A request that [quick_speak] sends is the only one of the run;
    it carries the text, a voice of the table (the identifier of the name
    given when the table has it), and the rate and volume of the
    configuration. *)
Theorem quick_speak_request (cfg : Config) (text voice : pystr) (w : World)
    (r : Run pystr) (req : SynthRequest) :
  quick_speak cfg text voice w = Some (Ok r) ->
  req ∈ synth_requests (trace r) ->
  synth_requests (trace r) = [req]
  /\ req_text req = text
  /\ table_voice (req_voice req)
  /\ (forall voice_id,
        FRENCH_VOICES !! voice = Some voice_id -> req_voice req = voice_id)
  /\ req_rate req = DEFAULT_RATE cfg
  /\ req_volume req = DEFAULT_VOLUME cfg.
Proof.
  unfold quick_speak.
  destruct (__init__ cfg (Some voice) None None true w) as [[tts|]|] eqn:Hinit;
    [|done|done].
  intros [= <-] Hreq.
  destruct (speak_request_inv _ _ _ _ _ _ _ _ Hreq) as [Hone ->].
  destruct (init_fields _ _ _ _ _ _ _ Hinit)
    as (Hv & Hrate & Hvol & _).
  cbn [req_text req_voice req_rate req_volume synth_request].
  split_and!; try done.
  - rewrite Hv. apply table_voice_default.
  - intros voice_id Hname. rewrite Hv.
    destruct voice as [|c voice]; [by vm_compute in Hname|].
    cbn [py_or]. by rewrite Hname.
Qed.

End Requests.

(** ** The listing of the cache *)

(** The list of the items and the table hold the same entries. *)
Lemma FRENCH_VOICES_items_table :
  list_to_map FRENCH_VOICES_items = FRENCH_VOICES.
Proof. reflexivity. Qed.






Section Listing.

Variable dict_items : gmap pystr pystr -> list (pystr * pystr).

Local Abbreviation show_cache_info := (show_cache_info dict_items).



End Listing.

(** ** The interactive loop *)

Lemma py_lstrip_by_head f s c t :
  py_lstrip_by f s = c :: t -> f c = false.
Proof.
  induction s as [|d s IH]; cbn [py_lstrip_by]; [done|].
  destruct (f d) eqn:E; [done|]. by intros [= <- _].
Qed.

(** A stripped string does not end with whitespace. *)
Lemma py_strip_last raw s c :
  py_strip raw = s ++ [c] -> py_isspace c = false.
Proof.
  unfold py_strip, py_rstrip_by. intros H.
  apply (f_equal (@rev N)) in H.
  rewrite rev_involutive, rev_app_distr in H. cbn [rev app] in H.
  by eapply py_lstrip_by_head.
Qed.

Lemma py_split_from_word wd : forall cur s,
  Forall (fun c => py_isspace c = false) wd ->
  py_split_from cur (wd ++ s) = py_split_from (rev wd ++ cur) s.
Proof.
  induction wd as [|c wd IH]; intros cur s Hwd; [done|].
  inversion_clear Hwd as [|? ? Hc Hwd']. cbn [app py_split_from rev].
  rewrite Hc, IH by done. by rewrite <- app_assoc.
Qed.

Lemma py_split_from_snoc s c : forall cur,
  py_isspace c = false -> py_split_from cur (s ++ [c]) <> [].
Proof.
  induction s as [|d s IH]; intros cur Hc; cbn [app py_split_from].
  - rewrite Hc. done.
  - destruct (py_isspace d); [|by apply IH].
    destruct cur; [by apply IH | done].
Qed.

(** A stripped line that starts with a word and a space has a second
    word. *)
Lemma command_argument (cmd raw : pystr) :
  cmd <> [] -> Forall (fun c => py_isspace c = false) cmd ->
  py_startswith (py_strip raw) (cmd ++ [32]) = true ->
  exists arg, py_split (py_strip raw) !! 1%nat = Some arg.
Proof.
  intros Hne Hcmd Hstart.
  apply PathFacts.py_startswith_inv in Hstart as [t Ht].
  rewrite Ht. rewrite <- app_assoc. unfold py_split.
  rewrite py_split_from_word by done. cbn [app py_split_from].
  change (py_isspace 32) with true. cbn match. rewrite app_nil_r.
  destruct (rev cmd) as [|c0 rc] eqn:Hrev.
  { apply (f_equal (@rev N)) in Hrev. rewrite rev_involutive in Hrev. done. }
  cbn [lookup list_lookup].
  destruct (exists_last (l := t)) as (t' & c & ->).
  { intros ->. rewrite app_nil_r in Ht.
    by apply py_strip_last in Ht. }
  assert (py_isspace c = false) as Hc.
  { rewrite app_assoc in Ht. by apply py_strip_last in Ht. }
  pose proof (py_split_from_snoc t' c [] Hc) as Hwords.
  destruct (py_split_from [] (t' ++ [c])) as [|arg rest]; [done|].
  by exists arg.
Qed.

Lemma list_voices_no_error (e : loop_exn) : UiError e ∉ list_voices.
Proof.
  intros Hin. vm_compute in Hin.
  repeat (apply elem_of_cons in Hin as [Hin|Hin]; [done|]).
  by apply elem_of_nil in Hin.
Qed.

Lemma elem_of_map_UiPrint (l : ui_line) (ls : list ui_line) :
  UiPrint l ∈ map UiPrint ls -> l ∈ ls.
Proof. intros (l' & [= ->] & Hin)%list_elem_of_fmap. done. Qed.

Lemma UiPrint_not_call (l : ui_line) (tr : list event) :
  UiPrint l ∉ map UiCall tr.
Proof. by intros (ev & ? & _)%list_elem_of_fmap. Qed.

Section Loop.

Variable uni_alnum : N -> bool.
Variable synthesize : SynthRequest -> World -> synth_outcome.
Variable playback : pystr -> World -> bool.
Variable dict_items : gmap pystr pystr -> list (pystr * pystr).

Local Abbreviation speak := (speak uni_alnum synthesize playback).
Local Abbreviation output_path := (output_path uni_alnum).
Local Abbreviation show_cache_info := (show_cache_info dict_items).
Local Abbreviation interactive_turn :=
  (interactive_turn uni_alnum synthesize playback dict_items).
Local Abbreviation interactive_lines :=
  (interactive_lines uni_alnum synthesize playback dict_items).

Lemma show_cache_info_no_error self (e : loop_exn) :
  UiError e ∉ show_cache_info self.
Proof.
  unfold show_cache_info. intros Hin.
  apply elem_of_app in Hin as [Hin|Hin].
  { repeat (apply elem_of_cons in Hin as [Hin|Hin]; [done|]).
    by apply elem_of_nil in Hin. }
  apply elem_of_app in Hin as [Hin|Hin].
  - case_bool_decide; [by apply elem_of_nil in Hin|].
    apply elem_of_cons in Hin as [Hin|Hin]; [done|].
    by apply list_elem_of_fmap in Hin as (ip & ? & _).
  - apply elem_of_cons in Hin as [Hin|Hin]; [done|].
    by apply elem_of_nil in Hin.
Qed.

Lemma interactive_turn_no_index_error tts raw w :
  UiPrint (UiError IndexError) ∉ turn_trace (interactive_turn tts raw w).
Proof.
  unfold interactive_turn.
  destruct (is_quit_word (py_strip raw)).
  { cbn [turn_trace]. intros Hin.
    apply elem_of_cons in Hin as [Hin|Hin]; [done|].
    by apply elem_of_nil in Hin. }
  destruct (py_strip raw) as [|c0 text0] eqn:Htext;
    [cbn [turn_trace]; by intros ?%elem_of_nil|].
  rewrite <- Htext.
  destruct (py_startswith (py_strip raw) (lit "/voice ")) eqn:Hvoice.
  { destruct (command_argument (lit "/voice") raw) as [arg ->];
      [done | by repeat constructor | done |].
    destruct (FRENCH_VOICES !! arg); cbn [turn_trace]; intros Hin.
    - apply elem_of_cons in Hin as [Hin|Hin]; [done|].
      by apply elem_of_nil in Hin.
    - apply elem_of_cons in Hin as [Hin|Hin]; [done|].
      apply elem_of_map_UiPrint in Hin. by apply list_voices_no_error in Hin. }
  destruct (py_startswith (py_strip raw) (lit "/rate ")) eqn:Hrate.
  { destruct (command_argument (lit "/rate") raw) as [arg ->];
      [done | by repeat constructor | done |].
    cbn [turn_trace]. intros Hin.
    apply elem_of_cons in Hin as [Hin|Hin]; [done|].
    by apply elem_of_nil in Hin. }
  repeat case_bool_decide; cbn [turn_trace]; intros Hin.
  - apply elem_of_cons in Hin as [Hin|Hin]; [done|].
    by apply elem_of_nil in Hin.
  - apply elem_of_map_UiPrint in Hin. by apply list_voices_no_error in Hin.
  - apply elem_of_map_UiPrint in Hin.
    by apply show_cache_info_no_error in Hin.
  - by apply UiPrint_not_call in Hin.
  - apply elem_of_app in Hin as [Hin|Hin];
      [by apply UiPrint_not_call in Hin|].
    destruct (ret _); [by apply elem_of_nil in Hin|].
    apply elem_of_cons in Hin as [Hin|Hin]; [done|].
    by apply elem_of_nil in Hin.
Qed.

(** X16.  The loop of [interactive_mode] never prints an [IndexError]:
    a stripped line that starts with [/voice ] or [/rate ] always has a
    second word. *)
Theorem interactive_no_index_error (tts : FrenchTTS)
    (typed : list (pystr * pystr)) (w : World) :
  UiPrint (UiError IndexError) ∉ turn_trace (interactive_lines tts typed w).
Proof.
  revert tts w. induction typed as [|[raw now] typed IH]; intros tts w.
  - cbn. by intros ?%elem_of_nil.
  - cbn [interactive_lines].
    pose proof (interactive_turn_no_index_error tts raw (set_clock w now))
      as Hturn.
    destruct (continue_loop _); [|done].
    cbn [turn_trace]. intros Hin.
    apply elem_of_app in Hin as [Hin|Hin]; [done|]. by apply IH in Hin.
Qed.

End Loop.

(** ** Settings and requests through the loop *)

Lemma ui_requests_app (l1 l2 : list ui_event) :
  ui_requests (l1 ++ l2) = ui_requests l1 ++ ui_requests l2.
Proof. apply omap_app. Qed.

Lemma ui_requests_prints (ls : list ui_line) :
  ui_requests (map UiPrint ls) = [].
Proof. induction ls as [|l ls IH]; [done|]. cbn. apply IH. Qed.

Lemma ui_requests_calls (tr : list event) :
  ui_requests (map UiCall tr) = synth_requests tr.
Proof.
  unfold ui_requests, synth_requests.
  induction tr as [|ev tr IH]; [done|].
  destruct ev; cbn; by rewrite IH.
Qed.

Lemma table_voice_lookup (name voice_id : pystr) :
  FRENCH_VOICES !! name = Some voice_id -> table_voice voice_id.
Proof. intros H. by exists name. Qed.

Section LoopSettings.

Variable uni_alnum : N -> bool.
Variable synthesize : SynthRequest -> World -> synth_outcome.
Variable playback : pystr -> World -> bool.
Variable dict_items : gmap pystr pystr -> list (pystr * pystr).

Local Abbreviation speak := (speak uni_alnum synthesize playback).
Local Abbreviation speak_generate :=
  (speak_generate uni_alnum synthesize playback).
Local Abbreviation output_path := (output_path uni_alnum).
Local Abbreviation show_cache_info := (show_cache_info dict_items).
Local Abbreviation interactive_turn :=
  (interactive_turn uni_alnum synthesize playback dict_items).
Local Abbreviation interactive_lines :=
  (interactive_lines uni_alnum synthesize playback dict_items).

(** [speak] changes nothing of the session but its store. *)
Lemma speak_self_after self text filename play force verbose w :
  exists c,
    self_after (speak self text filename play force verbose w)
    = set_cache self c.
Proof.
  destruct (_get_cache_key self text) as [K|e] eqn:Hkey.
  - destruct (cache_hit self w K force) eqn:Hhit.
    + destruct (speak_on_hit uni_alnum synthesize playback self text filename
                  play force verbose w K Hkey Hhit)
        as (F & _ & _ & _ & _ & ->).
      exists (cache self). cbn [self_after]. by rewrite set_cache_same.
    + destruct (speak_off_hit uni_alnum synthesize playback self text filename
                  play force verbose w K Hkey Hhit)
        as (c & _ & ->).
      destruct (speak_generate_after uni_alnum synthesize playback
                  (set_cache self c) K text filename
                  (default (auto_play self) play) verbose w)
        as ([-> | ->] & _); eauto.
  - unfold speak. rewrite Hkey. exists (cache self). cbn [self_after].
    by rewrite set_cache_same.
Qed.

(** The settings one turn leaves, and those its requests carry. *)
Lemma interactive_turn_settings tts raw w :
  table_voice (voice tts) ->
  table_voice (voice (tts_after (interactive_turn tts raw w)))
  /\ volume (tts_after (interactive_turn tts raw w)) = volume tts
  /\ output_dir (tts_after (interactive_turn tts raw w)) = output_dir tts
  /\ auto_play (tts_after (interactive_turn tts raw w)) = auto_play tts
  /\ use_cache (tts_after (interactive_turn tts raw w)) = use_cache tts
  /\ cache_file (tts_after (interactive_turn tts raw w)) = cache_file tts
  /\ forall req,
       req ∈ ui_requests (turn_trace (interactive_turn tts raw w)) ->
       req_voice req = voice tts /\ req_volume req = volume tts.
Proof.
  intros Hvoice. unfold interactive_turn.
  destruct (is_quit_word (py_strip raw));
    [cbn; split_and!; try done; by intros req ?%elem_of_nil|].
  destruct (py_strip raw) as [|c0 text0] eqn:Htext;
    [cbn; split_and!; try done; by intros req ?%elem_of_nil|].
  rewrite <- Htext.
  destruct (py_startswith (py_strip raw) (lit "/voice ")).
  { destruct (py_split (py_strip raw) !! 1%nat) as [arg|];
      [|cbn; split_and!; try done; by intros req ?%elem_of_nil].
    destruct (FRENCH_VOICES !! arg) as [voice_id|] eqn:Harg;
      cbn [tts_after turn_trace].
    - cbn. split_and!; try done; [|by intros req ?%elem_of_nil].
      by eapply table_voice_lookup.
    - change (UiPrint (UiVoiceUnknown arg) :: map UiPrint list_voices)
        with (map UiPrint (UiVoiceUnknown arg :: list_voices)).
      rewrite ui_requests_prints.
      split_and!; try done; by intros req ?%elem_of_nil. }
  destruct (py_startswith (py_strip raw) (lit "/rate ")).
  { destruct (py_split (py_strip raw) !! 1%nat) as [arg|];
      cbn; split_and!; try done; by intros req ?%elem_of_nil. }
  repeat case_bool_decide; cbn [tts_after turn_trace].
  - cbn. split_and!; try done; by intros req ?%elem_of_nil.
  - rewrite ui_requests_prints.
    split_and!; try done; by intros req ?%elem_of_nil.
  - rewrite ui_requests_prints.
    split_and!; try done; by intros req ?%elem_of_nil.
  - cbn. split_and!; try done; by intros req ?%elem_of_nil.
  - set (force := py_startswith (py_strip raw) (lit "!")).
    set (text := if force then _ else _).
    destruct (speak_self_after tts text None None force false w) as [c ->].
    cbn [voice volume output_dir auto_play use_cache cache_file set_cache].
    split_and!; try done.
    intros req. rewrite ui_requests_app, ui_requests_calls.
    assert (ui_requests
              match ret (speak tts text None None force false w) with
              | Ok _ => []
              | Raise e => [UiPrint (UiError (CallRaised e))]
              end = []) as ->.
    { by destruct (ret _). }
    rewrite app_nil_r. intros Hreq.
    apply speak_request_inv in Hreq as [_ ->]. done.
Qed.

(** The settings through the lines typed, from any session. *)
Lemma interactive_lines_settings (tts : FrenchTTS)
    (typed : list (pystr * pystr)) (w : World) :
  table_voice (voice tts) ->
  let t := interactive_lines tts typed w in
  table_voice (voice (tts_after t))
  /\ volume (tts_after t) = volume tts
  /\ output_dir (tts_after t) = output_dir tts
  /\ auto_play (tts_after t) = auto_play tts
  /\ use_cache (tts_after t) = use_cache tts
  /\ cache_file (tts_after t) = cache_file tts
  /\ forall req,
       req ∈ ui_requests (turn_trace t) ->
       table_voice (req_voice req) /\ req_volume req = volume tts.
Proof.
  cbn zeta. revert tts w.
  induction typed as [|[raw now] typed IH]; intros tts w Hvoice.
  - cbn. split_and!; try done. by intros req ?%elem_of_nil.
  - cbn [interactive_lines].
    destruct (interactive_turn_settings tts raw (set_clock w now) Hvoice)
      as (Hv & Hvol & Hdir & Hplay & Huse & Hcf & Hreqs).
    assert (forall req,
              req ∈ ui_requests
                      (turn_trace
                         (interactive_turn tts raw (set_clock w now))) ->
              table_voice (req_voice req) /\ req_volume req = volume tts)
      as Hreqs'.
    { intros req Hreq. destruct (Hreqs req Hreq) as [-> ->]. done. }
    destruct (continue_loop _); [|by split_and!].
    destruct (IH (tts_after (interactive_turn tts raw (set_clock w now)))
                 (turn_world (interactive_turn tts raw (set_clock w now))) Hv)
      as (Hv' & Hvol' & Hdir' & Hplay' & Huse' & Hcf' & Hreqs'').
    cbn [tts_after turn_trace].
    split_and!; try congruence.
    intros req. rewrite ui_requests_app. intros Hreq.
    apply elem_of_app in Hreq as [Hreq|Hreq]; [by apply Hreqs'|].
    destruct (Hreqs'' req Hreq) as [? ->]. done.
Qed.

(** X17.  [interactive_mode], whatever the configuration and the lines
    typed: the voice of the session is always one of the table; the volume,
    the output directory, the playing and the cache file are those of the
    configuration and caching stays on; and every request sent carries a
    voice of the table and the configured volume. *)
Theorem interactive_mode_settings (cfg : Config)
    (typed : list (pystr * pystr)) (w : World) (t : Turn) :
  interactive_mode uni_alnum synthesize playback dict_items cfg typed w
    = Some (Ok t) ->
  table_voice (voice (tts_after t))
  /\ volume (tts_after t) = DEFAULT_VOLUME cfg
  /\ output_dir (tts_after t) = OUTPUT_DIR cfg
  /\ auto_play (tts_after t) = AUTO_PLAY cfg
  /\ use_cache (tts_after t) = true
  /\ cache_file (tts_after t)
     = posixpath.join (OUTPUT_DIR cfg) (lit ".cache.json")
  /\ forall req,
       req ∈ ui_requests (turn_trace t) ->
       table_voice (req_voice req) /\ req_volume req = DEFAULT_VOLUME cfg.
Proof.
  unfold interactive_mode.
  destruct (__init__ cfg None None None true w) as [[tts|]|] eqn:Hinit;
    [|done|done].
  intros Ht.
  assert (t = mkTurn (continue_loop (interactive_lines tts typed w))
                (tts_after (interactive_lines tts typed w))
                (turn_world (interactive_lines tts typed w))
                (map UiPrint ([UiBanner] ++ list_voices ++ [UiPrompt])
                   ++ turn_trace (interactive_lines tts typed w))) as ->
    by congruence.
  clear Ht. cbn [tts_after turn_trace].
  destruct (init_fields _ _ _ _ _ _ _ Hinit)
    as (Hv & _ & Hvol & Hdir & Hplay & Huse & Hcf & _).
  cbn [py_or] in Hvol.
  assert (table_voice (voice tts)) as Htable.
  { rewrite Hv. apply table_voice_default. }
  destruct (interactive_lines_settings tts typed w Htable)
    as (Hv' & Hvol' & Hdir' & Hplay' & Huse' & Hcf' & Hreqs).
  split_and!; try congruence.
  intros req. rewrite ui_requests_app, ui_requests_prints. cbn [app].
  intros Hreq. destruct (Hreqs req Hreq) as [? ->]. done.
Qed.

(** X18.  A line starting with [!] forces the regeneration: when the key
    of the text that follows can be derived, the turn sends exactly one
    request, for that text stripped, stored or not. *)
Theorem bang_forces_regeneration (tts : FrenchTTS) (raw body : pystr)
    (w : World) (K : pystr) :
  py_strip raw = 33 :: body ->
  _get_cache_key tts (py_strip body) = Ok K ->
  ui_requests (turn_trace (interactive_turn tts raw w))
  = [synth_request tts (py_strip body)
       (output_path tts (py_strip body) None w)].
Proof.
  intros Hraw Hkey. unfold interactive_turn. rewrite Hraw.
  assert (is_quit_word (33 :: body) = false) as ->.
  { apply bool_decide_eq_false_2. cbn [map]. intros Hin.
    repeat (apply elem_of_cons in Hin as [Hin|Hin]; [done|]).
    by apply elem_of_nil in Hin. }
  change (py_startswith (33 :: body) (lit "/voice ")) with false.
  change (py_startswith (33 :: body) (lit "/rate ")) with false.
  change (py_startswith (33 :: body) (lit "!")) with true.
  cbn match.
  rewrite !bool_decide_eq_false_2 by done.
  cbn [drop turn_trace]. change (drop 0 body) with body.
  rewrite ui_requests_app, ui_requests_calls.
  assert (ui_requests
            match ret (speak tts (py_strip body) None None true false w) with
            | Ok _ => []
            | Raise e => [UiPrint (UiError (CallRaised e))]
            end = []) as ->.
  { by destruct (ret _). }
  rewrite app_nil_r.
  assert (cache_hit tts w K true = false) as Hhit.
  { unfold cache_hit. cbn [negb]. by rewrite andb_false_r. }
  destruct (speak_off_hit uni_alnum synthesize playback tts (py_strip body)
              None None true false w K Hkey Hhit) as (c & _ & ->).
  by rewrite speak_generate_requests.
Qed.

End LoopSettings.

(** ** When a save is silent *)

Lemma escape_char_encodable_inv c :
  Utf8.encodable (Json.escape_char c) ->
  c < 0x110000 /\ Utf8.is_surrogate c = false.
Proof.
  unfold Json.escape_char. intros H.
  repeat case_match; nbool;
    try (split; [lia | unfold Utf8.is_surrogate; by ntrue]).
  by inversion_clear H.
Qed.

Lemma encode_basestring_encodable_inv s :
  Utf8.encodable (Json.encode_basestring s) -> Utf8.encodable s.
Proof.
  unfold Json.encode_basestring.
  rewrite !Utf8Facts.encodable_app. intros (_ & H & _).
  induction s as [|c s IH]; [constructor|].
  cbn [flat_map] in H. apply Utf8Facts.encodable_app in H as [Hc Hs].
  constructor; [by apply escape_char_encodable_inv | by apply IH].
Qed.

Lemma member_chunks_encodable_inv kv :
  Forall Utf8.encodable (Json.member_chunks kv) ->
  Utf8.encodable kv.1 /\ Utf8.encodable kv.2.
Proof.
  unfold Json.member_chunks. intros H.
  inversion_clear H as [|? ? H1 H']. inversion_clear H' as [|? ? _ H''].
  inversion_clear H'' as [|? ? H2 _].
  split; by apply encode_basestring_encodable_inv.
Qed.

Lemma iterencode_encodable_inv items :
  Forall Utf8.encodable (Json.iterencode items) ->
  Forall (fun kv => Utf8.encodable kv.1 /\ Utf8.encodable kv.2) items.
Proof.
  destruct items as [|kv rest]; [constructor|].
  cbn [Json.iterencode]. rewrite !Forall_app. intros (_ & Hkv & Hrest & _).
  constructor; [by apply member_chunks_encodable_inv|].
  induction rest as [|kv' rest IH]; [constructor|].
  cbn [flat_map] in Hrest. apply Forall_app in Hrest as [Hkv' Hrest].
  inversion_clear Hkv' as [|? ? _ Hm].
  constructor; [by apply member_chunks_encodable_inv | by apply IH].
Qed.

(** The writing stops at the first chunk the codec refuses, with the error
    of the codec. *)
Lemma write_chunks_outcome chunks : forall written,
  match (write_chunks chunks written).2 with
  | None => Forall Utf8.encodable chunks
  | Some e => e = UnicodeEncodeError /\ ~ Forall Utf8.encodable chunks
  end.
Proof.
  induction chunks as [|ch chunks IH]; intros written; cbn [write_chunks].
  - cbn. constructor.
  - destruct (Utf8.encode ch) as [bs|e] eqn:Hch.
    + specialize (IH (written ++ bs)).
      destruct (write_chunks chunks (written ++ bs)).2 as [e|].
      * destruct IH as [-> Hn]. split; [done|].
        intros Hall. apply Hn. by inversion Hall.
      * constructor; [by eapply encode_ok_encodable | done].
    + cbn [snd]. destruct (encode_raises_unencodable ch e Hch) as [-> Hn].
      split; [done|]. intros Hall. apply Hn. by inversion Hall.
Qed.

Lemma items_store_encodable (m : gmap pystr pystr) :
  Forall (fun kv => Utf8.encodable kv.1 /\ Utf8.encodable kv.2) (map_to_list m)
  -> store_encodable m.
Proof.
  intros Hall k v Hkv. apply elem_of_map_to_list in Hkv.
  eapply Forall_forall in Hall; [|exact Hkv]. done.
Qed.

(** X19.  [_save_cache] prints nothing exactly when the cache file can
    be written and every string of the store is encodable; what it prints
    otherwise is one failure message: that of a refused opening, the world
    being left as it was, or that of the codec, some string of the store
    not being encodable; and it changes no file but the cache file. *)
Theorem save_cache_outcome (self : FrenchTTS) (w : World) :
  ((_save_cache self w).2 = [] <->
     (cache_file self ∉ write_protected w) /\ store_encodable (cache self))
  /\ (forall ev, ev ∈ (_save_cache self w).2 ->
        (ev = EvPrint (MsgCacheSaveFailed OSError)
         /\ (cache_file self ∈ write_protected w)
         /\ (_save_cache self w).1 = w)
        \/ (ev = EvPrint (MsgCacheSaveFailed UnicodeEncodeError)
            /\ ~ store_encodable (cache self)))
  /\ (forall p, p <> cache_file self ->
        files (_save_cache self w).1 !! p = files w !! p).
Proof.
  split_and!; [| |apply save_cache_files].
  - split.
    + unfold _save_cache. case_bool_decide as Hw; [done|].
      pose proof (write_chunks_outcome
                    (Json.iterencode (map_to_list (cache self))) []) as Hout.
      destruct (write_chunks _ _) as [written [e|]]; [done|].
      intros _. split; [done|].
      by apply items_store_encodable, iterencode_encodable_inv.
    + intros [Hw Henc].
      by destruct (StoreFacts.save_cache_ok self w Hw Henc) as (bs & _ & ->).
  - unfold _save_cache. case_bool_decide as Hw.
    + cbn [fst snd]. intros ev ->%list_elem_of_singleton. by left.
    + pose proof (write_chunks_outcome
                    (Json.iterencode (map_to_list (cache self))) []) as Hout.
      destruct (write_chunks _ _) as [written [e|]]; cbn [fst snd] in *.
      * destruct Hout as [-> Hn]. intros ev ->%list_elem_of_singleton.
        right. split; [done|]. intros Henc. apply Hn.
        by apply StoreFacts.iterencode_encodable,
                 StoreFacts.store_encodable_items.
      * by intros ev ?%elem_of_nil.
Qed.

(** ** The demonstration, run twice *)

Lemma string_of_uint_ascii (d : Decimal.uint) :
  Forall (fun c => c < 128) (lit (NilEmpty.string_of_uint d)).
Proof.
  induction d; cbn [NilEmpty.string_of_uint lit];
    [constructor | constructor; [by vm_compute | done] ..].
Qed.

Lemma py_str_nat_ascii (i : nat) : Forall (fun c => c < 128) (py_str_nat i).
Proof.
  unfold py_str_nat, NilZero.string_of_uint.
  destruct (Nat.to_uint i) eqn:E; rewrite <- ?E;
    first [ by repeat constructor | apply string_of_uint_ascii ].
Qed.

Lemma demo_voice_ascii (i : nat) : Forall (fun c => c < 128) (demo_voice i).
Proof.
  unfold demo_voice. change (length demo_voices) with 3%nat.
  pose proof (Nat.mod_upper_bound i 3) as Hlt.
  destruct (i mod 3)%nat as [|[|[|n]]]; [| | |lia];
    vm_compute; repeat constructor.
Qed.

Lemma demo_filename_encodable (i : nat) :
  Utf8.encodable (demo_filename i (demo_voice i)).
Proof.
  apply StoreFacts.ascii_encodable. unfold demo_filename, fmt_02d.
  rewrite !Forall_app. split_and!.
  - vm_compute; repeat constructor.
  - apply Forall_forall. intros c Hc%list_elem_of_In%repeat_spec. by subst.
  - apply py_str_nat_ascii.
  - vm_compute; repeat constructor.
  - apply demo_voice_ascii.
  - vm_compute; repeat constructor.
Qed.

Lemma get_cache_key_ext (a b : FrenchTTS) (text : pystr) :
  voice a = voice b -> rate a = rate b -> volume a = volume b ->
  _get_cache_key a text = _get_cache_key b text.
Proof. unfold _get_cache_key. by intros -> -> ->. Qed.

(** A mapping on disk makes [__init__] build a session that holds it. *)
Lemma init_of_disk cfg v r vol uc w m :
  disk_mapping (posixpath.join (OUTPUT_DIR cfg) (lit ".cache.json")) w
    = Some m ->
  exists s, __init__ cfg v r vol uc w = Some (Ok s) /\ cache s = m.
Proof.
  intros Hdisk. unfold __init__. rewrite FRENCH_VOICES_denise.
  destruct (disk_mapping_load
              (posixpath.join (OUTPUT_DIR cfg) (lit ".cache.json")) w)
    as (loaded & -> & Hmap).
  rewrite Hdisk in Hmap. rewrite <- Hmap. eauto.
Qed.

Section Demonstration.

Variable uni_alnum : N -> bool.
Variable synthesize : SynthRequest -> World -> synth_outcome.
Variable playback : pystr -> World -> bool.

Local Abbreviation speak := (speak uni_alnum synthesize playback).
Local Abbreviation speak_generate :=
  (speak_generate uni_alnum synthesize playback).
Local Abbreviation output_path := (output_path uni_alnum).
Local Abbreviation demo_loop := (demo_loop uni_alnum synthesize playback).
Local Abbreviation demo_mode := (demo_mode uni_alnum synthesize playback).

(** After a call without forced regeneration that returned a path: the
    entry of the text, the entries that were usable before, and the
    protections. *)
Lemma speak_settles self text filename play verbose w p K :
  use_cache self = true ->
  _get_cache_key self text = Ok K ->
  ret (speak self text filename play false verbose w) = Ok p ->
  cache (self_after (speak self text filename play false verbose w)) !! K
    = Some p
  /\ path_exists (world_after (speak self text filename play false verbose w))
       p = true
  /\ (forall K' p',
        cache self !! K' = Some p' -> path_exists w p' = true ->
        cache (self_after (speak self text filename play false verbose w))
          !! K' = Some p'
        /\ path_exists
             (world_after (speak self text filename play false verbose w))
             p' = true)
  /\ write_protected
       (world_after (speak self text filename play false verbose w))
     = write_protected w
  /\ read_protected
       (world_after (speak self text filename play false verbose w))
     = read_protected w.
Proof.
  intros Huse Hkey Hret.
  destruct (cache_hit self w K false) eqn:Hhit.
  - destruct (speak_on_hit uni_alnum synthesize playback self text filename
                play false verbose w K Hkey Hhit)
      as (F & Hstore & HF & _ & _ & Hrun).
    rewrite Hrun in Hret |- *. cbn [ret] in Hret. injection Hret as <-.
    cbn [self_after world_after]. by split_and!.
  - destruct (speak_off_hit uni_alnum synthesize playback self text filename
                play false verbose w K Hkey Hhit)
      as (c & Hc & Hrun).
    rewrite Hrun in Hret |- *.
    destruct (speak_generate_ret_ok uni_alnum synthesize playback _ _ _ _ _ _
                _ _ Hret) as [audio Hsynth].
    destruct (speak_generate_ok uni_alnum synthesize playback
                (set_cache self c) K text filename
                (default (auto_play self) play) verbose w audio Hsynth)
      as (Hret' & Hself & Hworld & _).
    destruct (speak_generate_after uni_alnum synthesize playback
                (set_cache self c) K text filename
                (default (auto_play self) play) verbose w)
      as (_ & _ & Hkeep & Hwp & Hrp & _).
    rewrite Hret' in Hret. injection Hret as <-.
    split_and!; try done.
    + rewrite Hself. cbn [use_cache set_cache cache]. rewrite Huse.
      cbn [cache set_cache]. apply lookup_insert_eq.
    + rewrite Hworld. cbn [use_cache set_cache]. rewrite Huse.
      apply save_cache_keeps_file, path_exists_write_file.
    + intros K' p' Hstore Hfile. split; [|by apply Hkeep].
      assert (K' <> K) as Hne.
      { intros ->. unfold cache_hit in Hhit.
        rewrite Huse, Hstore, Hfile in Hhit. done. }
      rewrite Hself. cbn [use_cache set_cache cache]. rewrite Huse.
      cbn [cache set_cache]. rewrite lookup_insert_ne by done.
      destruct Hc as [-> | [-> _]]; [done | by rewrite lookup_delete_ne].
Qed.

(** The loop of the demonstration run again on what a complete run left. *)
Lemma demo_loop_twice cfg items :
  Utf8.encodable (OUTPUT_DIR cfg) ->
  forall w d,
    let cf := posixpath.join (OUTPUT_DIR cfg) (lit ".cache.json") in
    cache_usable cf w ->
    demo_loop cfg items w = Some d ->
    demo_raised d = None ->
    length (demo_paths d) = length items
    /\ (forall K p, settled cf w K p -> settled cf (demo_world d) K p)
    /\ forall w2,
         (forall K p, settled cf (demo_world d) K p -> settled cf w2 K p) ->
         exists d2,
           demo_loop cfg items w2 = Some d2
           /\ demo_raised d2 = None
           /\ demo_paths d2 = demo_paths d
           /\ ui_requests (demo_trace d2) = []
           /\ demo_world d2 = w2.
Proof.
  intros Hdir. induction items as [|[i sentence] rest IH];
    intros w d cf Husable Hloop Hnone.
  { cbn in Hloop. injection Hloop as <-. cbn. split_and!; try done.
    intros w2 _. by eexists. }
  cbn [demo_loop] in Hloop.
  destruct (__init__ cfg (Some (demo_voice i)) None None true w)
    as [[tts|e]|] eqn:Hinit; [| |done].
  2: { injection Hloop as <-. done. }
  destruct (init_fields _ _ _ _ _ _ _ Hinit)
    as (Hv & Hrate & Hvol & Hod & _ & Huse & Hcf & Hdisk).
  fold cf in Hcf. rewrite Hcf in Hdisk.
  destruct Husable as (Hw & Hr & Henc).
  set (r := speak tts sentence (Some (demo_filename i (demo_voice i)))
                  (Some true) false true w) in *.
  destruct (ret r) as [p|e] eqn:Hret.
  2: { injection Hloop as <-. done. }
  destruct (demo_loop cfg rest (world_after r)) as [d1|] eqn:Hrest; [|done].
  injection Hloop as <-. cbn [demo_raised demo_paths demo_world] in *.
  destruct (_get_cache_key tts sentence) as [K|e] eqn:Hkey.
  2: { subst r. unfold speak in Hret. by rewrite Hkey in Hret. }
  destruct (speak_keeps_sync uni_alnum synthesize playback tts sentence
              (Some (demo_filename i (demo_voice i))) (Some true) false true
              w p) as [Hsync Henc1]; try done.
  { by rewrite Hcf. }
  { by rewrite Hcf. }
  { by rewrite Hcf. }
  { by apply Henc. }
  { by rewrite Hod. }
  { intros f [= <-]. apply demo_filename_encodable. }
  fold r in Hsync, Henc1. rewrite Hcf in Hsync.
  destruct (speak_settles tts sentence
              (Some (demo_filename i (demo_voice i))) (Some true) true w p K
              Huse Hkey Hret) as (Hown & Hfile & Hothers & Hwp & Hrp).
  fold r in Hown, Hfile, Hothers, Hwp, Hrp.
  assert (cache_usable cf (world_after r)) as Husable1.
  { split_and!.
    - by rewrite Hwp.
    - by rewrite Hrp.
    - intros m Hm. rewrite Hsync in Hm. by injection Hm as <-. }
  destruct (IH (world_after r) d1 Husable1 Hrest Hnone)
    as (Hlen & Hpres & Hagain).
  assert (forall K' p', settled cf w K' p' -> settled cf (world_after r) K' p')
    as Hstep.
  { intros K' p' (m & Hm & Hstore & Hexists).
    rewrite Hdisk in Hm. injection Hm as <-.
    destruct (Hothers K' p' Hstore Hexists) as [Hstore' Hexists'].
    by exists (cache (self_after r)). }
  split_and!.
  - cbn [length]. by rewrite Hlen.
  - intros K' p' Hs. by apply Hpres, Hstep.
  - intros w2 Hpres2.
    assert (settled cf w2 K p) as (m2 & Hm2 & Hstore2 & Hexists2).
    { apply Hpres2, Hpres. by exists (cache (self_after r)). }
    destruct (init_of_disk cfg (Some (demo_voice i)) None None true w2 m2 Hm2)
      as (tts2 & Hinit2 & Hcache2).
    destruct (init_fields _ _ _ _ _ _ _ Hinit2)
      as (Hv2 & Hrate2 & Hvol2 & _ & _ & Huse2 & _).
    assert (_get_cache_key tts2 sentence = Ok K) as Hkey2.
    { rewrite <- Hkey. apply get_cache_key_ext; congruence. }
    assert (cache_hit tts2 w2 K false = true) as Hhit2.
    { unfold cache_hit. rewrite Huse2, Hcache2, Hstore2. done. }
    destruct (speak_on_hit uni_alnum synthesize playback tts2 sentence
                (Some (demo_filename i (demo_voice i))) (Some true) false
                true w2 K Hkey2 Hhit2)
      as (F & HF & _ & _ & _ & Hrun).
    rewrite Hcache2, Hstore2 in HF. injection HF as <-.
    destruct (Hagain w2 Hpres2)
      as (d2 & Hloop2 & Hnone2 & Hpaths2 & Hreq2 & Hw2).
    cbn [demo_loop]. rewrite Hinit2, Hrun. cbn [ret world_after trace].
    rewrite Hloop2. eexists. split; [done|].
    cbn [demo_raised demo_paths demo_world demo_trace].
    split_and!; try done.
    + by rewrite Hpaths2.
    + change (UiPrint (UiDemoItem i (demo_voice i) sentence) :: ?l)
        with ([UiPrint (UiDemoItem i (demo_voice i) sentence)] ++ l).
      rewrite !ui_requests_app, ui_requests_calls, Hreq2.
      rewrite synth_requests_app.
      change (default (auto_play tts2) (Some true)) with true.
      cbn match. by rewrite play_audio_requests.
Qed.

(** X20.  [demo_mode] run a second time: when the cache file is usable
    and the output directory encodable, after a run that went through its
    six sentences, a further run at any later reading of the clock returns
    the same six paths, asks the service for nothing and leaves the file
    system as it is. *)
Theorem demo_mode_again (cfg : Config) (w : World) (d : Demo) (now : pystr) :
  let cf := posixpath.join (OUTPUT_DIR cfg) (lit ".cache.json") in
  cache_usable cf w ->
  Utf8.encodable (OUTPUT_DIR cfg) ->
  demo_mode cfg w = Some d ->
  demo_raised d = None ->
  length (demo_paths d) = 6%nat
  /\ exists d',
       demo_mode cfg (set_clock (demo_world d) now) = Some d'
       /\ demo_raised d' = None
       /\ demo_paths d' = demo_paths d
       /\ ui_requests (demo_trace d') = []
       /\ demo_world d' = set_clock (demo_world d) now.
Proof.
  intros cf Husable Hdir Hdemo Hnone. unfold demo_mode in Hdemo |- *.
  destruct (demo_loop cfg (py_enumerate 1 (take 6 SAMPLE_SENTENCES)) w)
    as [d0|] eqn:Hloop; [|done].
  injection Hdemo as <-. cbn [demo_raised demo_paths demo_world] in *.
  destruct (demo_loop_twice cfg _ Hdir w d0 Husable Hloop Hnone)
    as (Hlen & _ & Hagain).
  split; [by rewrite Hlen|].
  destruct (Hagain (set_clock (demo_world d0) now)) as
    (d2 & Hloop2 & Hnone2 & Hpaths2 & Hreq2 & Hw2); [done|].
  rewrite Hloop2. eexists. split; [done|].
  cbn [demo_raised demo_paths demo_world demo_trace].
  split_and!; try done.
  rewrite Hnone2. rewrite !ui_requests_app, Hreq2. done.
Qed.

End Demonstration.

(** * Concrete runs *)

(** The cut at 30 characters falling on a separator: 29 letters, a space
    and a second word. *)
Example sanitize_cut_on_separator :
  _sanitize_filename latin1_alnum (repeat 97 29 ++ lit " bbb") 30
  = repeat 97 29.
Proof. by_evaluation. Qed.


(** The underscore survives in the code and not in the rule as worded. *)
Lemma sanitize_keeps_underscore :
  _sanitize_filename latin1_alnum (lit "a_b") 30 = lit "a_b"
  /\ sanitize_spec latin1_alnum (lit "a_b") = lit "ab"
  /\ _sanitize_filename latin1_alnum (lit "a_b") 30
     <> sanitize_spec latin1_alnum (lit "a_b").
Proof. split_and!; by_evaluation. Qed.

Lemma sanitize_filename_rule_witness :
  (forall c, c < 256 -> latin1_alnum c = latin1_alnum c)
  /\ _sanitize_filename latin1_alnum (lit "Au revoir!") 30
     = sanitize_spec latin1_alnum (lit "Au revoir!")
  /\ _sanitize_filename latin1_alnum bonjour_madame 30
     = lit "Bonjour_Madame_je_voudrais".
Proof.
  split; [reflexivity|].
  pose proof (sanitize_filename_rule latin1_alnum (fun c _ => eq_refl))
    as (_ & Hspec & Hex & _).
  split; [|exact Hex]. apply Hspec. decide_closed.
Defined.




(** A lone surrogate in the text: the key derivation raises. *)
Lemma cache_key_surrogate_raises :
  _get_cache_key (henri_session true ∅) [0xDC80] = Raise UnicodeEncodeError.
Proof. by_evaluation. Qed.

Lemma cache_key_shape_witness :
  exists k,
    _get_cache_key (henri_session true ∅) (lit "Bonjour") = Ok k
    /\ length k = 16%nat
    /\ Forall (fun c => is_hex_lower c = true) k
    /\ forall other,
         voice other = voice (henri_session true ∅) ->
         rate other = rate (henri_session true ∅) ->
         volume other = volume (henri_session true ∅) ->
         _get_cache_key other (lit "Bonjour") = Ok k.
Proof.
  apply (cache_key_shape (henri_session true ∅) (lit "Bonjour"));
    unfold Utf8.encodable; decide_closed.
Defined.

(** A cache file that stops after the opening brace. *)
Lemma load_cache_never_raises_witness :
  let cf := lit "samples/.cache.json" in
  let w := world_of {[ cf := [123] ]} in
  json_load w cf = Raise JSONDecodeError
  /\ _load_cache cf w = Ok (Json.Obj [])
  /\ disk_mapping cf w = Some ∅.
Proof.
  split; [by_evaluation|].
  apply (proj2 (proj2 (load_cache_never_raises
                         (lit "samples/.cache.json")
                         (world_of {[ lit "samples/.cache.json" := [123] ]})))
           JSONDecodeError).
  by_evaluation.
Defined.



(** A path holding a lone surrogate: the save stops at the value, the file
    keeps the text written so far, and a load finds the empty mapping.
    A write-protected cache file: the save leaves no file at all. *)
Lemma save_load_loses_surrogate :
  (let self := henri_session true surrogate_store in
   let saved := _save_cache self (world_of ∅) in
   saved.2 = [EvPrint (MsgCacheSaveFailed UnicodeEncodeError)]
   /\ files saved.1 !! cache_file self
      = Some [123; 10; 32; 32; 34; 107; 34; 58; 32]
   /\ disk_mapping (cache_file self) saved.1 = Some ∅
   /\ disk_mapping (cache_file self) saved.1 <> Some (cache self))
  /\ (let self := henri_session true stale_store in
      let w := {| files := ∅; write_protected := {[ cache_file self ]};
                  read_protected := ∅; clock := [] |} in
      let saved := _save_cache self w in
      saved.2 = [EvPrint (MsgCacheSaveFailed OSError)]
      /\ disk_mapping (cache_file self) saved.1 = Some ∅
      /\ disk_mapping (cache_file self) saved.1 <> Some (cache self)).
Proof. split_and!; by_evaluation. Qed.

Lemma save_load_round_trip_witness :
  let self := henri_session true stale_store in
  let w := world_of ∅ in
  (_save_cache self w).2 = []
  /\ disk_mapping (cache_file self) (_save_cache self w).1 = Some (cache self).
Proof.
  apply (save_load_round_trip (henri_session true stale_store) (world_of ∅)).
  - by_evaluation.
  - by_evaluation.
  - unfold store_encodable, Utf8.encodable. decide_closed.
Defined.



(** A store filled by hand with another kind of file: the hit returns it. *)
Lemma speak_returns_stored_path :
  let self := henri_session true notes_store in
  let w := world_of {[ lit "samples/notes.txt" := [104; 105] ]} in
  let r := speak latin1_alnum synth_ok player_ok self (lit "Bonjour")
                 None None false false w in
  ret r = Ok (lit "samples/notes.txt")
  /\ ends_with_mp3 (lit "samples/notes.txt") = false
  /\ ends_with_mp3 (posixpath.basename (lit "samples/notes.txt")) = false.
Proof. split_and!; by_evaluation. Qed.

Lemma speak_returns_mp3_witness :
  let self := henri_session true ∅ in
  let r := speak latin1_alnum synth_ok player_ok self (lit "Bonjour")
                 None None false false (world_of ∅) in
  ret r = Ok bonjour_mp3
  /\ ends_with_mp3 (output_path latin1_alnum self (lit "Bonjour") None
                                (world_of ∅)) = true
  /\ ends_with_mp3 bonjour_mp3 = true
  /\ ends_with_mp3 (posixpath.basename bonjour_mp3) = true
  /\ map_Forall (fun _ v => ends_with_mp3 v = true) (cache (self_after r)).
Proof.
  split; [by_evaluation|].
  apply (speak_returns_mp3 latin1_alnum synth_ok player_ok
           (henri_session true ∅) (lit "Bonjour") None None false false
           (world_of ∅) bonjour_mp3).
  - apply map_Forall_empty.
  - by_evaluation.
Defined.

(** ** Runs of the further properties *)

(** The store apart from the key of the text, here with a stale entry. *)
Lemma speak_store_frame_witness :
  let self := henri_session true stale_store in
  let r := speak latin1_alnum synth_ok player_ok self (lit "Bonjour")
                 None None false false (world_of ∅) in
  cache (self_after r) !! lit "k" = cache self !! lit "k"
  /\ set_cache (self_after r) (cache self) = self.
Proof.
  apply (speak_store_frame latin1_alnum synth_ok player_ok
           (henri_session true stale_store) (lit "Bonjour") None None
           false false (world_of ∅) (lit "k")).
  by_evaluation.
Defined.




Lemma clear_then_speak_witness :
  let self := henri_session true cached_store in
  let w := world_of {[ bonjour_mp3 := [73; 68; 51] ]} in
  let c := clear_cache self w in
  let r := speak latin1_alnum synth_ok player_ok (self_after c)
                 (lit "Bonjour") None None false false (world_after c) in
  synth_requests (trace r)
    = [synth_request self (lit "Bonjour")
         (output_path latin1_alnum self (lit "Bonjour") None w)]
  /\ forall k, k <> bonjour_key -> cache (self_after r) !! k = None.
Proof.
  apply (clear_then_speak latin1_alnum synth_ok player_ok
           (henri_session true cached_store)
           (world_of {[ bonjour_mp3 := [73; 68; 51] ]}) (lit "Bonjour")
           None None false false bonjour_key).
  by_evaluation.
Defined.

Lemma generated_name_in_output_dir_witness :
  let self := henri_session true ∅ in
  let w := world_of ∅ in
  (47 ∉ output_filename latin1_alnum bonjour_madame None w)
  /\ posixpath.basename (output_path latin1_alnum self bonjour_madame None w)
     = output_filename latin1_alnum bonjour_madame None w
  /\ py_startswith (output_path latin1_alnum self bonjour_madame None w)
                   (output_dir self) = true.
Proof.
  apply (generated_name_in_output_dir latin1_alnum (henri_session true ∅)
           bonjour_madame (world_of ∅)).
  - reflexivity.
  - decide_closed.
Defined.

Lemma absolute_filename_leaves_output_dir_witness :
  output_path latin1_alnum (henri_session true ∅) (lit "Bonjour")
              (Some (lit "/tmp/x")) (world_of ∅)
  = (if py_endswith (lit "/tmp/x") (lit ".mp3") then lit "/tmp/x"
     else lit "/tmp/x" ++ lit ".mp3").
Proof.
  apply (absolute_filename_leaves_output_dir latin1_alnum
           (henri_session true ∅) (lit "Bonjour") (lit "/tmp/x")
           (world_of ∅)).
  reflexivity.
Defined.

Lemma init_voice_in_table_witness :
  exists s,
    __init__ config_py (Some (lit "remy")) None None true (world_of ∅)
      = Some (Ok s)
    /\ table_voice (voice s)
    /\ (forall name voice_id,
          Some (lit "remy") = Some name ->
          FRENCH_VOICES !! name = Some voice_id -> voice s = voice_id)
    /\ cache_file s = posixpath.join (output_dir s) (lit ".cache.json")
    /\ disk_mapping (cache_file s) (world_of ∅) = Some (cache s).
Proof.
  eexists. split; [by_evaluation|].
  apply (init_voice_in_table config_py (Some (lit "remy")) None None true
           (world_of ∅)).
  by_evaluation.
Defined.

Lemma quick_speak_request_witness :
  synth_requests (trace first_bonjour) = [bonjour_request]
  /\ req_text bonjour_request = lit "Bonjour"
  /\ table_voice (req_voice bonjour_request)
  /\ (forall voice_id,
        FRENCH_VOICES !! lit "henri" = Some voice_id ->
        req_voice bonjour_request = voice_id)
  /\ req_rate bonjour_request = DEFAULT_RATE config_py
  /\ req_volume bonjour_request = DEFAULT_VOLUME config_py.
Proof.
  apply (quick_speak_request latin1_alnum synth_ok player_ok config_py
           (lit "Bonjour") (lit "henri") (world_of ∅) first_bonjour
           bonjour_request).
  - by_evaluation.
  - assert (synth_requests (trace first_bonjour) = [bonjour_request]) as ->
      by by_evaluation.
    by apply list_elem_of_singleton.
Defined.

Lemma quick_speak_again_witness :
  exists r',
    quick_speak latin1_alnum synth_ok player_ok config_py (lit "Bonjour")
                (lit "henri") (set_clock (world_after first_bonjour) later)
      = Some (Ok r')
    /\ ret r' = Ok bonjour_mp3
    /\ synth_requests (trace r') = []
    /\ world_after r' = set_clock (world_after first_bonjour) later.
Proof.
  apply (quick_speak_again latin1_alnum synth_ok player_ok config_py
           (lit "Bonjour") (lit "henri") (world_of ∅) later first_bonjour
           bonjour_mp3).
  - apply not_elem_of_empty.
  - apply not_elem_of_empty.
  - intros m Hm.
    assert (disk_mapping
              (posixpath.join (OUTPUT_DIR config_py) (lit ".cache.json"))
              (world_of ∅) = Some ∅) as Hdisk by by_evaluation.
    rewrite Hdisk in Hm. injection Hm as <-. apply map_Forall_empty.
  - unfold Utf8.encodable. decide_closed.
  - unfold Utf8.encodable. decide_closed.
  - by_evaluation.
  - by_evaluation.
Defined.


Lemma interactive_mode_settings_witness :
  exists t,
    interactive_mode latin1_alnum synth_ok player_ok map_to_list config_py
                     two_lines (world_of ∅) = Some (Ok t)
    /\ table_voice (voice (tts_after t))
    /\ volume (tts_after t) = DEFAULT_VOLUME config_py
    /\ output_dir (tts_after t) = OUTPUT_DIR config_py
    /\ auto_play (tts_after t) = AUTO_PLAY config_py
    /\ use_cache (tts_after t) = true
    /\ cache_file (tts_after t)
       = posixpath.join (OUTPUT_DIR config_py) (lit ".cache.json")
    /\ forall req,
         req ∈ ui_requests (turn_trace t) ->
         table_voice (req_voice req)
         /\ req_volume req = DEFAULT_VOLUME config_py.
Proof.
  eexists. split; [by_evaluation|].
  apply (interactive_mode_settings latin1_alnum synth_ok player_ok
           map_to_list config_py two_lines (world_of ∅)).
  by_evaluation.
Defined.

Lemma bang_forces_regeneration_witness :
  let tts := henri_session true cached_store in
  let w := world_of {[ bonjour_mp3 := [73; 68; 51] ]} in
  ui_requests
    (turn_trace (interactive_turn latin1_alnum synth_ok player_ok map_to_list
                                  tts (lit " !Bonjour ") w))
  = [synth_request tts (py_strip (lit "Bonjour"))
       (output_path latin1_alnum tts (py_strip (lit "Bonjour")) None w)].
Proof.
  apply (bang_forces_regeneration latin1_alnum synth_ok player_ok map_to_list
           (henri_session true cached_store) (lit " !Bonjour ")
           (lit "Bonjour") (world_of {[ bonjour_mp3 := [73; 68; 51] ]})
           bonjour_key); by_evaluation.
Defined.

Lemma demo_mode_again_witness :
  exists d,
    demo_mode latin1_alnum synth_ok player_ok config_py (world_of ∅) = Some d
    /\ length (demo_paths d) = 6%nat
    /\ exists d',
         demo_mode latin1_alnum synth_ok player_ok config_py
                   (set_clock (demo_world d) later) = Some d'
         /\ demo_raised d' = None
         /\ demo_paths d' = demo_paths d
         /\ ui_requests (demo_trace d') = []
         /\ demo_world d' = set_clock (demo_world d) later.
Proof.
  eexists. split; [by_evaluation|].
  apply (demo_mode_again latin1_alnum synth_ok player_ok config_py
           (world_of ∅) _ later).
  - split_and!; [apply not_elem_of_empty | apply not_elem_of_empty |].
    intros m Hm.
    assert (disk_mapping
              (posixpath.join (OUTPUT_DIR config_py) (lit ".cache.json"))
              (world_of ∅) = Some ∅) as Hdisk by by_evaluation.
    rewrite Hdisk in Hm. injection Hm as <-. apply map_Forall_empty.
  - unfold Utf8.encodable. decide_closed.
  - by_evaluation.
  - by_evaluation.
Defined.
